(** * Email composition and simulated delivery (email_models.py)

    A shallow embedding of [EmailAddress], [Email], [EmailService] and
    [LoggingEmailService], and the laws of the specification settled on it.

    Modelling choices.
    - A Python [str] is a list of characters, [pystr]; a character is one
      code point below 256 (Rocq's [ascii]), with [str.isspace] and
      [str.lower] as Python defines them on that range.
    - [EmailAddress] objects are never mutated after construction and are
      modelled as values.  [Email] objects are mutable and live in a heap
      of objects addressed by location; [deepcopy] allocates.
    - [datetime.now()] reads a wall clock that the world carries; the file
      [send.log] is a field of the world.
    - A raised exception is the [Raise] outcome of a computation; the world
      it leaves behind is kept. *)

From Stdlib Require Import Ascii String List Bool Arith Lia.
From stdpp Require Import base list strings.
Import ListNotations.

Local Open Scope string_scope.
Local Open Scope list_scope.
Local Open Scope nat_scope.

(** ** Strings *)

Abbreviation pystr := (list ascii).

(** String literals of the source. *)
Definition py (s : string) : pystr := list_ascii_of_string s.

(** [str.isspace] on one character: TAB LF VT FF CR, FS GS RS US, SPACE,
    NEL and NBSP. *)
Definition isspace (c : ascii) : bool :=
  let n := nat_of_ascii c in
  ((9 <=? n) && (n <=? 13)) || ((28 <=? n) && (n <=? 32))
  || (n =? 133) || (n =? 160).

(** [str.lower] on one character: A-Z, and the Latin-1 capitals
    U+00C0..U+00DE without the multiplication sign U+00D7. *)
Definition lower_char (c : ascii) : ascii :=
  let n := nat_of_ascii c in
  if ((65 <=? n) && (n <=? 90))
     || ((192 <=? n) && (n <=? 222) && negb (n =? 215))
  then ascii_of_nat (n + 32) else c.

Definition lower (s : pystr) : pystr := map lower_char s.

Fixpoint lstrip (s : pystr) : pystr :=
  match s with
  | [] => []
  | c :: r => if isspace c then lstrip r else s
  end.

Definition rstrip (s : pystr) : pystr := rev (lstrip (rev s)).

(** [s.strip()] *)
Definition strip (s : pystr) : pystr := rstrip (lstrip s).

(** [s.split()] without a separator: the maximal runs of characters that
    are not whitespace, left to right; [word] is the run being read. *)
Fixpoint split_from (word s : pystr) : list pystr :=
  match s with
  | [] => match word with [] => [] | _ => [word] end
  | c :: r =>
      if isspace c
      then match word with
           | [] => split_from [] r
           | _ => word :: split_from [] r
           end
      else split_from (word ++ [c]) r
  end.

Definition split (s : pystr) : list pystr := split_from [] s.

(** [s.split(sep)] for a one-character separator: every occurrence
    splits, empty pieces are kept. *)
Fixpoint split_sep (sep : ascii) (s : pystr) : list pystr :=
  match s with
  | [] => [[]]
  | c :: r =>
      if Ascii.eqb c sep then [] :: split_sep sep r
      else match split_sep sep r with
           | w :: ws => (c :: w) :: ws
           | [] => [[c]]
           end
  end.

(** [sep.join(parts)] *)
Fixpoint join (sep : pystr) (parts : list pystr) : pystr :=
  match parts with
  | [] => []
  | [w] => w
  | w :: rest => w ++ sep ++ join sep rest
  end.

(** [c in s] for a one-character [c] *)
Definition contains (c : ascii) (s : pystr) : bool := existsb (Ascii.eqb c) s.

Definition pystr_eqb (s t : pystr) : bool :=
  bool_decide (s = t).

(** [s.endswith(suf)] *)
Definition endswith (s suf : pystr) : bool :=
  (length suf <=? length s) && pystr_eqb (drop (length s - length suf) s) suf.

(** ** Exceptions *)

Inductive exn : Type :=
  | ValueError (msg : pystr)
  | AttributeError (msg : pystr)
  | IndexError (msg : pystr).

(** The outcome of a call: a value, a raised exception, or [Stuck] when
    the model is handed a location that holds no object, which no Python
    reference ever is. *)
Inductive result (A : Type) : Type :=
  | Ok (a : A)
  | Raise (e : exn)
  | Stuck.
Arguments Ok {A} a.
Arguments Raise {A} e.
Arguments Stuck {A}.

(** ** Status *)

Inductive Status : Type := DRAFT | READY | SENT | FAILED | INVALID.

#[global] Instance Status_eq_dec : EqDecision Status.
Proof. solve_decision. Defined.

(** [Status.value] *)
Definition Status_value (s : Status) : pystr :=
  match s with
  | DRAFT => py "draft"
  | READY => py "ready"
  | SENT => py "sent"
  | FAILED => py "failed"
  | INVALID => py "invalid"
  end.

(** ** EmailAddress *)

Record EmailAddress : Type := { _address : pystr }.

Definition _normalize (address : pystr) : pystr := lower (strip address).

Definition allowed_tlds : list pystr := [py ".com"; py ".ru"; py ".net"].

Definition _validate (address : pystr) : result unit :=
  if negb (contains "@" address)
  then Raise (ValueError (py "Invalid email: " ++ address))
  else
    let domain_ok := existsb (endswith address) allowed_tlds in
    if negb domain_ok
    then Raise (ValueError (py "Invalid email domain: " ++ address))
    else Ok tt.

(** [EmailAddress(address)] *)
Definition EmailAddress_init (address : pystr) : result EmailAddress :=
  let a := _normalize address in
  match _validate a with
  | Ok _ => Ok {| _address := a |}
  | Raise e => Raise e
  | Stuck => Stuck
  end.

Definition value (self : EmailAddress) : pystr := _address self.

(** [name, domain = self._address.split("@")] unpacks a list of exactly
    two pieces and raises ValueError on any other length (the messages
    are those of CPython 3.11). *)
Definition masked (self : EmailAddress) : result pystr :=
  match split_sep "@" (_address self) with
  | [name; domain] =>
      let prefix := take 2 name in
      Ok (prefix ++ py "***@" ++ domain)
  | [] | [_] =>
      Raise (ValueError (py "not enough values to unpack (expected 2, got 1)"))
  | _ => Raise (ValueError (py "too many values to unpack (expected 2)"))
  end.

(** ** datetime *)

Record datetime : Type := {
  year : nat; month : nat; day : nat;
  hour : nat; minute : nat; second : nat; microsecond : nat
}.

Definition digit (n : nat) : ascii := ascii_of_nat (48 + n mod 10).

(** [n] in decimal on exactly [width] digits, zero padded. *)
Fixpoint zpad (width n : nat) : pystr :=
  match width with
  | 0 => []
  | S w => zpad w (n / 10) ++ [digit n]
  end.

(** [str(d)] of a naive datetime: [d.isoformat(sep=" ")]. *)
Definition datetime_str (d : datetime) : pystr :=
  zpad 4 (year d) ++ py "-" ++ zpad 2 (month d) ++ py "-" ++ zpad 2 (day d)
  ++ py " " ++ zpad 2 (hour d) ++ py ":" ++ zpad 2 (minute d)
  ++ py ":" ++ zpad 2 (second d)
  ++ (if microsecond d =? 0 then [] else py "." ++ zpad 6 (microsecond d)).

(** ** Email objects *)

Record Email : Type := {
  subject : pystr;
  body : pystr;
  sender : option EmailAddress;
  recipients : list EmailAddress;
  date : option datetime;
  short_body : option pystr;
  status : Status
}.

Definition with_subject (v : pystr) (e : Email) : Email :=
  {| subject := v; body := body e; sender := sender e;
     recipients := recipients e; date := date e;
     short_body := short_body e; status := status e |}.

Definition with_body (v : pystr) (e : Email) : Email :=
  {| subject := subject e; body := v; sender := sender e;
     recipients := recipients e; date := date e;
     short_body := short_body e; status := status e |}.

Definition with_recipients (v : list EmailAddress) (e : Email) : Email :=
  {| subject := subject e; body := body e; sender := sender e;
     recipients := v; date := date e;
     short_body := short_body e; status := status e |}.

Definition with_date (v : option datetime) (e : Email) : Email :=
  {| subject := subject e; body := body e; sender := sender e;
     recipients := recipients e; date := v;
     short_body := short_body e; status := status e |}.

Definition with_short_body (v : option pystr) (e : Email) : Email :=
  {| subject := subject e; body := body e; sender := sender e;
     recipients := recipients e; date := date e;
     short_body := v; status := status e |}.

Definition with_status (v : Status) (e : Email) : Email :=
  {| subject := subject e; body := body e; sender := sender e;
     recipients := recipients e; date := date e;
     short_body := short_body e; status := v |}.

(** ** The world: object heap, wall clock, log file *)

Abbreviation loc := nat.

Record World : Type := {
  heap : list Email;            (* the Email objects, by location *)
  wall : nat -> datetime;       (* what the n-th [datetime.now()] returns *)
  ticks : nat;                  (* how many times the clock was read *)
  send_log : option pystr       (* contents of send.log, None: no file *)
}.

Definition with_heap (h : list Email) (w : World) : World :=
  {| heap := h; wall := wall w; ticks := ticks w; send_log := send_log w |}.

Definition M (A : Type) : Type := World -> result A * World.

Definition ret {A} (a : A) : M A := fun w => (Ok a, w).

Definition bind {A B} (c : M A) (k : A -> M B) : M B :=
  fun w =>
    match c w with
    | (Ok a, w') => k a w'
    | (Raise e, w') => (Raise e, w')
    | (Stuck, w') => (Stuck, w')
    end.

Definition raise {A} (e : exn) : M A := fun w => (Raise e, w).

Definition lift {A} (r : result A) : M A := fun w => (r, w).

Notation "x <- c ;; k" := (bind c (fun x => k))
  (at level 100, c at next level, right associativity).
Notation "c ;; k" := (bind c (fun _ => k))
  (at level 100, right associativity).

Definition load (l : loc) : M Email :=
  fun w => match heap w !! l with
           | Some e => (Ok e, w)
           | None => (Stuck, w)
           end.

Definition store (l : loc) (e : Email) : M unit :=
  fun w => (Ok tt, with_heap (<[l := e]> (heap w)) w).

Definition alloc (e : Email) : M loc :=
  fun w => (Ok (length (heap w)), with_heap (heap w ++ [e]) w).

(** [self.f] and [self.f = v] *)
Definition getattr {A} (f : Email -> A) (self : loc) : M A :=
  e <- load self ;; ret (f e).

Definition setattr (upd : Email -> Email) (self : loc) : M unit :=
  e <- load self ;; store self (upd e).

(** [deepcopy(email)]: a new object with the same field values. *)
Definition deepcopy (l : loc) : M loc :=
  e <- load l ;; alloc e.

(** [datetime.now()] *)
Definition datetime_now : M datetime :=
  fun w => (Ok (wall w (ticks w)),
            {| heap := heap w; wall := wall w; ticks := S (ticks w);
               send_log := send_log w |}).

(** [open(LOG_FILE, "a")]: the file is created when it does not exist. *)
Definition open_append : M unit :=
  fun w => (Ok tt,
            {| heap := heap w; wall := wall w; ticks := ticks w;
               send_log := Some (default [] (send_log w)) |}).

(** [file.write(s)] on a file opened for appending *)
Definition file_write (s : pystr) : M unit :=
  fun w => (Ok tt,
            {| heap := heap w; wall := wall w; ticks := ticks w;
               send_log := Some (default [] (send_log w) ++ s) |}).

(** ** Email *)

(** [Email(subject, body, sender, recipients)] with [__post_init__]:
    a single address becomes a one-element list; the other fields take
    their defaults. *)
Definition Email_init (subject body : pystr) (sender : option EmailAddress)
    (recipients : EmailAddress + list EmailAddress) : M loc :=
  alloc {| subject := subject; body := body; sender := sender;
           recipients := match recipients with
                         | inl a => [a]
                         | inr l => l
                         end;
           date := None; short_body := None; status := DRAFT |}.

Definition add_short_body (self : loc) (limit : nat) : M unit :=
  b <- getattr body self ;;
  let clean := join (py " ") (split b) in
  setattr (with_short_body
             (Some (take limit clean
                    ++ (if limit <? length clean then py "..." else []))))
          self.

(** An empty string, [None] and an empty list are the falsy values here;
    an [EmailAddress] object is always truthy. *)
Definition _validate_fields (self : loc) : M unit :=
  e <- load self ;;
  if match subject e with [] => true | _ => false end
     || match body e with [] => true | _ => false end
  then setattr (with_status INVALID) self
  else if match sender e with None => true | Some _ => false end
          || match recipients e with [] => true | _ => false end
  then setattr (with_status INVALID) self
  else setattr (with_status READY) self.

Definition prepare (self : loc) : M unit :=
  s <- getattr subject self ;;
  setattr (with_subject (strip s)) self ;;
  b <- getattr body self ;;
  setattr (with_body (strip b)) self ;;
  add_short_body self 20 ;;
  _validate_fields self.

(** ** EmailService *)

(** The body of [for recipient in email.recipients], [result] being the
    list built so far. *)
Fixpoint send_email_loop (email : loc) (rs : list EmailAddress)
    (result : list loc) : M (list loc) :=
  match rs with
  | [] => ret result
  | recipient :: rest =>
      new_email <- deepcopy email ;;
      setattr (with_recipients [recipient]) new_email ;;
      now <- datetime_now ;;
      setattr (with_date (Some now)) new_email ;;
      st <- getattr status email ;;
      (if bool_decide (st = READY)
       then setattr (with_status SENT) new_email
       else setattr (with_status FAILED) new_email) ;;
      send_email_loop email rest (result ++ [new_email])
  end.

Definition send_email (email : loc) : M (list loc) :=
  rs <- getattr recipients email ;;
  send_email_loop email rs [].

(** ** LoggingEmailService *)

Definition newline : pystr := [ascii_of_nat 10].

(** [email.sender.masked]; [None] has no attribute [masked]. *)
Definition sender_masked (email : loc) : M pystr :=
  s <- getattr sender email ;;
  match s with
  | None => raise (AttributeError (py "masked"))
  | Some a => lift (masked a)
  end.

(** [msg.recipients[0].masked] *)
Definition first_recipient_masked (msg : loc) : M pystr :=
  rs <- getattr recipients msg ;;
  match rs with
  | [] => raise (IndexError (py "list index out of range"))
  | r :: _ => lift (masked r)
  end.

(** The line of the f-string, from its four interpolated values. *)
Definition log_line (now : datetime) (from to : pystr) (st : Status) : pystr :=
  datetime_str now ++ py ": " ++ py "FROM " ++ from ++ py " "
  ++ py "TO " ++ to ++ py " " ++ py "STATUS=" ++ Status_value st ++ newline.

Fixpoint log_loop (email : loc) (results : list loc) : M unit :=
  match results with
  | [] => ret tt
  | msg :: rest =>
      now <- datetime_now ;;
      from <- sender_masked email ;;
      to <- first_recipient_masked msg ;;
      st <- getattr status msg ;;
      file_write (log_line now from to st) ;;
      log_loop email rest
  end.

Definition logging_send_email (email : loc) : M (list loc) :=
  results <- send_email email ;;
  open_append ;;
  log_loop email results ;;
  ret results.

(** ** Textual representations *)

(** [EmailAddress.__repr__] and [EmailAddress.__str__] *)
Definition EmailAddress_repr (self : EmailAddress) : pystr := value self.

(** [Email.__repr__]: the recipients are listed unmasked, the sender
    masked; a StrEnum member is formatted as its value. *)
Definition Email_repr (self : loc) : M pystr :=
  rs <- getattr recipients self ;;
  let rec_list := join (py ", ") (map value rs) in
  from <- sender_masked self ;;
  subj <- getattr subject self ;;
  st <- getattr status self ;;
  ret (py "Email(from=" ++ from ++ py ", to=[" ++ rec_list ++ py "], "
       ++ py "subject='" ++ subj ++ py "', status='" ++ Status_value st
       ++ py "')").

(** * Notions of the specification and closed forms

    What the laws are stated with: predicates in the specification's
    words, and the result of each operation written as a plain function,
    each proved below to be what the operation computes. *)

(** ** Whitespace *)

Definition starts_ws (s : pystr) : bool :=
  match s with
  | [] => false
  | c :: _ => isspace c
  end.

Definition ends_ws (s : pystr) : bool := starts_ws (rev s).

(** [s] neither starts nor ends with whitespace. *)
Definition trimmed (s : pystr) : Prop :=
  starts_ws s = false /\ ends_ws s = false.

Definition all_ws (s : pystr) : bool := forallb isspace s.

(** The collapsed text in the specification's words: every maximal run of
    whitespace characters is replaced by one space, all other characters
    are kept. *)
Fixpoint collapse_runs (s : pystr) : pystr :=
  match s with
  | [] => []
  | c :: r =>
      if isspace c
      then (if starts_ws r then collapse_runs r else " "%char :: collapse_runs r)
      else c :: collapse_runs r
  end.

(** ** Addresses *)

(** [v] ends with one of the suffixes .com, .ru, .net. *)
Definition has_allowed_suffix (v : pystr) : Prop :=
  exists p tld, In tld [py ".com"; py ".ru"; py ".net"] /\ v = p ++ tld.

(** [v] has exactly one separator, between a non-empty local part and a
    non-empty domain part. *)
Definition one_separator (v : pystr) : Prop :=
  exists name domain,
    v = name ++ "@"%char :: domain /\
    ~ In "@"%char name /\ ~ In "@"%char domain /\
    name <> [] /\ domain <> [].

(** The invariant of the data model, as the specification words it. *)
Definition well_formed (v : pystr) : Prop :=
  one_separator v /\ has_allowed_suffix v.

(** [masked] returns a text for [a]. *)
Definition maskable (a : EmailAddress) : Prop := exists m, masked a = Ok m.

Definition masked_text (a : EmailAddress) : pystr :=
  match masked a with
  | Ok m => m
  | _ => []
  end.

(** ** prepare *)

(** The value [add_short_body] stores for body [b]. *)
Definition shortened (limit : nat) (b : pystr) : pystr :=
  let clean := join (py " ") (split b) in
  take limit clean ++ (if limit <? length clean then py "..." else []).

(** The status [_validate_fields] stores. *)
Definition validated_status (e : Email) : Status :=
  match subject e, body e, sender e, recipients e with
  | _ :: _, _ :: _, Some _, _ :: _ => READY
  | _, _, _, _ => INVALID
  end.

(** The fields of an email after [prepare]. *)
Definition prepared (e : Email) : Email :=
  let e1 := with_subject (strip (subject e)) e in
  let e2 := with_body (strip (body e1)) e1 in
  let e3 := with_short_body (Some (shortened 20 (body e2))) e2 in
  with_status (validated_status e3) e3.

(** ** send_email *)

(** The status of a copy, from the status of the source. *)
Definition resolved (st : Status) : Status :=
  match st with
  | READY => SENT
  | DRAFT | SENT | FAILED | INVALID => FAILED
  end.

(** The copy made for [recipient] when the clock reads [now]. *)
Definition outcome (e : Email) (recipient : EmailAddress) (now : datetime)
    : Email :=
  with_status (resolved (status e))
    (with_date (Some now) (with_recipients [recipient] e)).

(** The copies for [rs], the clock having been read [n] times before. *)
Fixpoint outcomes (e : Email) (clock : nat -> datetime) (n : nat)
    (rs : list EmailAddress) : list Email :=
  match rs with
  | [] => []
  | r :: rest => outcome e r (clock n) :: outcomes e clock (S n) rest
  end.

(** The lines written for the copies made for [rs], all of status [st],
    the clock having been read [n] times before. *)
Fixpoint log_text (clock : nat -> datetime) (n : nat) (from : pystr)
    (st : Status) (rs : list EmailAddress) : pystr :=
  match rs with
  | [] => []
  | r :: rest =>
      log_line (clock n) from (masked_text r) st
      ++ log_text clock (S n) from st rest
  end.

(** ** Sample data *)

(** A clock that ticks one second per reading. *)
Definition demo_clock (n : nat) : datetime :=
  {| year := 2025; month := 1; day := 2;
     hour := 3; minute := 4; second := n; microsecond := 0 |}.

Definition demo_email : Email :=
  {| subject := py " Hi "; body := py " Test Body ";
     sender := Some {| _address := py "me@me.com" |};
     recipients := [ {| _address := py "you@you.com" |};
                     {| _address := py "b@b.ru" |} ];
     date := None; short_body := None; status := DRAFT |}.

Definition demo_world : World :=
  {| heap := [demo_email]; wall := demo_clock; ticks := 0; send_log := None |}.

Definition empty_world : World :=
  {| heap := []; wall := demo_clock; ticks := 0; send_log := None |}.

(** The scenario of the logging test: construct, prepare, deliver. *)
Definition logging_scenario : M (list loc) :=
  email <- Email_init (py "Hello") (py "Body")
             (Some {| _address := py "me@me.com" |})
             (inl {| _address := py "you@you.com" |}) ;;
  prepare email ;;
  logging_send_email email.

(** The address a@b@c.com, which [EmailAddress_init] accepts. *)
Definition two_separators : EmailAddress := {| _address := py "a@b@c.com" |}.

(** A prepared message sent from that address. *)
Definition bad_sender_email : Email :=
  {| subject := py "Hello"; body := py "Body";
     sender := Some two_separators;
     recipients := [ {| _address := py "you@you.com" |} ];
     date := None; short_body := Some (py "Body"); status := READY |}.

Definition bad_sender_world : World :=
  {| heap := [bad_sender_email]; wall := demo_clock; ticks := 0;
     send_log := None |}.

(** A prepared message without recipients and without sender. *)
Definition no_recipient_email : Email :=
  {| subject := py "Hello"; body := py "Body"; sender := None;
     recipients := []; date := None; short_body := Some (py "Body");
     status := INVALID |}.

Definition no_recipient_world : World :=
  {| heap := [no_recipient_email]; wall := demo_clock; ticks := 0;
     send_log := Some (py "old") |}.

(** A prepared message whose second recipient is a@b@c.com. *)
Definition bad_recipient_email : Email :=
  {| subject := py "Hello"; body := py "Body";
     sender := Some {| _address := py "me@me.com" |};
     recipients := [ {| _address := py "you@you.com" |}; two_separators;
                     {| _address := py "b@b.ru" |} ];
     date := None; short_body := Some (py "Body"); status := READY |}.

Definition bad_recipient_world : World :=
  {| heap := [bad_recipient_email]; wall := demo_clock; ticks := 0;
     send_log := None |}.

(** * Properties *)

(** ** Examples from the test suite *)

Example ex_normalize :
  EmailAddress_init (py "  UsEr@Example.COM  ")
  = Ok {| _address := py "user@example.com" |}.
Proof. reflexivity. Qed.

Example ex_masked :
  masked {| _address := py "alexander@example.com" |}
  = Ok (py "al***@example.com").
Proof. reflexivity. Qed.

Example ex_split : split (py "  a b   cd ") = [py "a"; py "b"; py "cd"].
Proof. reflexivity. Qed.

Example ex_invalid_format :
  EmailAddress_init (py "invalid_email")
  = Raise (ValueError (py "Invalid email: invalid_email")).
Proof. reflexivity. Qed.

Example ex_invalid_domain :
  EmailAddress_init (py "user@example.xyz")
  = Raise (ValueError (py "Invalid email domain: user@example.xyz")).
Proof. reflexivity. Qed.

Example ex_logging_scenario :
  fst (logging_scenario empty_world) = Ok [1]
  /\ send_log (snd (logging_scenario empty_world))
     = Some (py "2025-01-02 03:04:01: FROM me***@me.com TO yo***@you.com STATUS=sent"
             ++ newline).
Proof. split; reflexivity. Qed.

(** ** Trimming *)

Lemma lstrip_decompose (s : pystr) :
  exists pre, s = pre ++ lstrip s /\ all_ws pre = true.
Proof.
  induction s as [|c r [pre [Heq Hws]]]; simpl.
  - exists []. split; reflexivity.
  - destruct (isspace c) eqn:Hc.
    + exists (c :: pre). split.
      * simpl. f_equal. exact Heq.
      * simpl. rewrite Hc. exact Hws.
    + exists []. split; reflexivity.
Qed.

Lemma lstrip_starts (s : pystr) : starts_ws (lstrip s) = false.
Proof.
  induction s as [|c r IH]; simpl; [reflexivity|].
  destruct (isspace c) eqn:Hc; [exact IH|]. simpl. exact Hc.
Qed.

Lemma lstrip_fixed (s : pystr) : starts_ws s = false -> lstrip s = s.
Proof.
  destruct s as [|c r]; simpl; [reflexivity|]. intros ->. reflexivity.
Qed.

Lemma all_ws_rev (s : pystr) : all_ws (rev s) = all_ws s.
Proof.
  unfold all_ws. induction s as [|c r IH]; simpl; [reflexivity|].
  rewrite forallb_app, IH. simpl. rewrite andb_true_r. apply andb_comm.
Qed.

Lemma rstrip_decompose (s : pystr) :
  exists suf, s = rstrip s ++ suf /\ all_ws suf = true.
Proof.
  unfold rstrip. destruct (lstrip_decompose (rev s)) as [pre [Heq Hws]].
  exists (rev pre). split.
  - rewrite <- rev_app_distr, <- Heq, rev_involutive. reflexivity.
  - rewrite all_ws_rev. exact Hws.
Qed.

Lemma rstrip_ends (s : pystr) : ends_ws (rstrip s) = false.
Proof.
  unfold ends_ws, rstrip. rewrite rev_involutive. apply lstrip_starts.
Qed.

Lemma rstrip_fixed (s : pystr) : ends_ws s = false -> rstrip s = s.
Proof.
  unfold ends_ws, rstrip. intros H. rewrite (lstrip_fixed _ H).
  apply rev_involutive.
Qed.

Lemma rstrip_starts (s : pystr) :
  starts_ws s = false -> starts_ws (rstrip s) = false.
Proof.
  intros H. destruct (rstrip_decompose s) as [suf [Heq _]].
  destruct (rstrip s) as [|c r] eqn:Hr; [reflexivity|].
  rewrite Heq in H. exact H.
Qed.

Lemma strip_trimmed (s : pystr) : trimmed (strip s).
Proof.
  unfold trimmed, strip. split.
  - apply rstrip_starts, lstrip_starts.
  - apply rstrip_ends.
Qed.

Lemma strip_fixed (s : pystr) : trimmed s -> strip s = s.
Proof.
  intros [Hs He]. unfold strip. rewrite (lstrip_fixed _ Hs).
  apply rstrip_fixed, He.
Qed.

Lemma strip_idempotent (s : pystr) : strip (strip s) = strip s.
Proof. apply strip_fixed, strip_trimmed. Qed.

(** [strip] removes a whitespace prefix and a whitespace suffix and
    nothing else. *)
Lemma strip_decompose (s : pystr) :
  exists pre suf,
    s = pre ++ strip s ++ suf /\ all_ws pre = true /\ all_ws suf = true.
Proof.
  destruct (lstrip_decompose s) as [pre [Hl Hpre]].
  destruct (rstrip_decompose (lstrip s)) as [suf [Hr Hsuf]].
  exists pre, suf. unfold strip. rewrite <- Hr, <- Hl. auto.
Qed.

(** ** Collapsing whitespace runs *)

Lemma ends_ws_cons (c : ascii) (r : pystr) :
  ends_ws (c :: r) = match r with [] => isspace c | _ => ends_ws r end.
Proof.
  unfold ends_ws. simpl. destruct r as [|d r']; [reflexivity|].
  destruct (rev (d :: r')) as [|x xs] eqn:Hrev; [|reflexivity].
  apply (f_equal (@length ascii)) in Hrev. rewrite length_rev in Hrev.
  discriminate.
Qed.

Lemma all_ws_ends (s : pystr) : all_ws s = true -> s <> [] -> ends_ws s = true.
Proof.
  induction s as [|c r IH]; [congruence|]. simpl. intros H _.
  apply andb_true_iff in H as [Hc Hr]. rewrite ends_ws_cons.
  destruct r as [|d r']; [exact Hc|]. apply IH; [exact Hr|discriminate].
Qed.

Lemma lstrip_nonempty (s : pystr) :
  s <> [] -> ends_ws s = false -> lstrip s <> [].
Proof.
  intros Hne He Hl. destruct (lstrip_decompose s) as [pre [Heq Hws]].
  rewrite Hl, app_nil_r in Heq. subst pre.
  rewrite (all_ws_ends s Hws Hne) in He. discriminate.
Qed.

Lemma collapse_runs_ws (c : ascii) (r : pystr) :
  isspace c = true -> lstrip r <> [] ->
  collapse_runs (c :: r) = " "%char :: collapse_runs (lstrip r).
Proof.
  revert c. induction r as [|d r' IH]; intros c Hc Hne.
  - simpl in Hne. congruence.
  - change (collapse_runs (c :: d :: r'))
      with (if isspace c
            then (if isspace d then collapse_runs (d :: r')
                  else " "%char :: collapse_runs (d :: r'))
            else c :: collapse_runs (d :: r')).
    rewrite Hc. simpl lstrip in *. destruct (isspace d) eqn:Hd.
    + apply IH; assumption.
    + reflexivity.
Qed.

Lemma split_from_word (word s : pystr) : word <> [] -> split_from word s <> [].
Proof.
  revert word. induction s as [|c r IH]; intros word Hw; simpl.
  - destruct word; congruence.
  - destruct (isspace c).
    + destruct word; congruence.
    + apply IH. destruct word; discriminate.
Qed.

Lemma split_from_nonempty (s : pystr) : lstrip s <> [] -> split_from [] s <> [].
Proof.
  induction s as [|c r IH]; simpl; [congruence|].
  destruct (isspace c); [exact IH|]. intros _.
  apply split_from_word. discriminate.
Qed.

Lemma join_cons (sep w : pystr) (rest : list pystr) :
  rest <> [] -> join sep (w :: rest) = w ++ sep ++ join sep rest.
Proof. destruct rest; [congruence|reflexivity]. Qed.

(** The loop invariant of [split]: with a word being read, the pieces
    joined by one space are that word followed by the collapsed rest. *)
Lemma join_split_from (s word : pystr) :
  ends_ws s = false ->
  join (py " ") (split_from word s)
  = match word with
    | [] => collapse_runs (lstrip s)
    | _ => word ++ collapse_runs s
    end.
Proof.
  revert word. induction s as [|c r IH]; intros word He.
  - destruct word; simpl; [reflexivity|]. rewrite app_nil_r. reflexivity.
  - rewrite ends_ws_cons in He. simpl split_from. simpl lstrip.
    destruct (isspace c) eqn:Hc.
    + destruct r as [|d r']; [congruence|].
      assert (Hl : lstrip (d :: r') <> []) by (apply lstrip_nonempty; congruence).
      destruct word as [|x word'].
      * apply (IH [] He).
      * rewrite join_cons by (apply split_from_nonempty, Hl).
        rewrite (IH [] He), (collapse_runs_ws c _ Hc Hl). reflexivity.
    + assert (He' : ends_ws r = false) by (destruct r; [reflexivity|exact He]).
      rewrite (IH (word ++ [c]) He').
      destruct (word ++ [c]) as [|y ys] eqn:Hwc.
      { destruct word; discriminate. }
      rewrite <- Hwc. simpl collapse_runs. rewrite Hc.
      destruct word; [reflexivity|]. rewrite <- app_assoc. reflexivity.
Qed.

(** On a trimmed text, [" ".join(s.split())] is the collapsed text. *)
Lemma join_split_collapse (s : pystr) :
  trimmed s -> join (py " ") (split s) = collapse_runs s.
Proof.
  intros [Hs He]. unfold split. rewrite (join_split_from s [] He).
  rewrite (lstrip_fixed s Hs). reflexivity.
Qed.

(** ** Running computations *)

Lemma bind_run {A B} (c : M A) (k : A -> M B) (w w' : World) (a : A) :
  c w = (Ok a, w') -> bind c k w = k a w'.
Proof. unfold bind. intros ->. reflexivity. Qed.

Lemma load_run (l : loc) (w : World) (e : Email) :
  heap w !! l = Some e -> load l w = (Ok e, w).
Proof. unfold load. intros ->. reflexivity. Qed.

Lemma getattr_run {A} (f : Email -> A) (l : loc) (w : World) (e : Email) :
  heap w !! l = Some e -> getattr f l w = (Ok (f e), w).
Proof.
  intros H. unfold getattr. rewrite (bind_run _ _ _ _ _ (load_run _ _ _ H)).
  reflexivity.
Qed.

Lemma setattr_run (upd : Email -> Email) (l : loc) (w : World) (e : Email) :
  heap w !! l = Some e ->
  setattr upd l w = (Ok tt, with_heap (<[l := upd e]> (heap w)) w).
Proof.
  intros H. unfold setattr. rewrite (bind_run _ _ _ _ _ (load_run _ _ _ H)).
  reflexivity.
Qed.

Lemma with_heap_lookup (w : World) (l : loc) (e e' : Email) :
  heap w !! l = Some e ->
  heap (with_heap (<[l := e']> (heap w)) w) !! l = Some e'.
Proof.
  intros H. simpl. apply list_lookup_insert_eq. eapply lookup_lt_Some, H.
Qed.

Lemma with_heap_again (w : World) (l : loc) (e e' : Email) :
  with_heap (<[l := e']> (heap (with_heap (<[l := e]> (heap w)) w)))
            (with_heap (<[l := e]> (heap w)) w)
  = with_heap (<[l := e']> (heap w)) w.
Proof. unfold with_heap. simpl. rewrite list_insert_insert_eq. reflexivity. Qed.

(** ** What prepare computes *)

Lemma add_short_body_run (l : loc) (limit : nat) (w : World) (e : Email) :
  heap w !! l = Some e ->
  add_short_body l limit w
  = (Ok tt,
     with_heap (<[l := with_short_body (Some (shortened limit (body e))) e]>
                  (heap w)) w).
Proof.
  intros H. unfold add_short_body.
  rewrite (bind_run _ _ _ _ _ (getattr_run body _ _ _ H)).
  apply (setattr_run _ _ _ _ H).
Qed.

Lemma _validate_fields_run (l : loc) (w : World) (e : Email) :
  heap w !! l = Some e ->
  _validate_fields l w
  = (Ok tt, with_heap (<[l := with_status (validated_status e) e]> (heap w)) w).
Proof.
  intros H. unfold _validate_fields.
  rewrite (bind_run _ _ _ _ _ (load_run _ _ _ H)).
  unfold validated_status.
  destruct (subject e), (body e), (sender e), (recipients e); simpl;
    apply (setattr_run _ _ _ _ H).
Qed.

Lemma prepare_run (l : loc) (w : World) (e : Email) :
  heap w !! l = Some e ->
  prepare l w = (Ok tt, with_heap (<[l := prepared e]> (heap w)) w).
Proof.
  intros H. unfold prepare.
  rewrite (bind_run _ _ _ _ _ (getattr_run subject _ _ _ H)).
  rewrite (bind_run _ _ _ _ _ (setattr_run _ _ _ _ H)).
  pose proof (with_heap_lookup w l e (with_subject (strip (subject e)) e) H) as H1.
  rewrite (bind_run _ _ _ _ _ (getattr_run body _ _ _ H1)).
  rewrite (bind_run _ _ _ _ _ (setattr_run _ _ _ _ H1)).
  rewrite with_heap_again.
  pose proof (with_heap_lookup w l e
    (with_body (strip (body (with_subject (strip (subject e)) e)))
       (with_subject (strip (subject e)) e)) H) as H2.
  rewrite (bind_run _ _ _ _ _ (add_short_body_run _ _ _ _ H2)).
  rewrite with_heap_again.
  match goal with
  | |- _validate_fields l (with_heap (<[l := ?x]> _) _) = _ =>
      pose proof (with_heap_lookup w l e x H) as H3
  end.
  rewrite (_validate_fields_run _ _ _ H3), with_heap_again.
  reflexivity.
Qed.

Lemma prepared_idempotent (e : Email) : prepared (prepared e) = prepared e.
Proof.
  unfold prepared. simpl. rewrite !strip_idempotent. reflexivity.
Qed.

(** ** Message preparation *)

(** C4. Prepare status law: [prepare] returns normally, and afterwards the
    status is INVALID if the trimmed subject is empty, or the trimmed body
    is empty, or the sender is absent, or there are no recipients;
    otherwise it is READY. *)
Theorem prepare_status_law (w : World) (l : loc) (e : Email) :
  heap w !! l = Some e ->
  exists w' e',
    prepare l w = (Ok tt, w') /\ heap w' !! l = Some e' /\
    (strip (subject e) = [] \/ strip (body e) = [] \/
     sender e = None \/ recipients e = [] -> status e' = INVALID) /\
    (~ (strip (subject e) = [] \/ strip (body e) = [] \/
        sender e = None \/ recipients e = []) -> status e' = READY).
Proof.
  intros H. eexists _, (prepared e).
  split; [apply (prepare_run _ _ _ H)|].
  split; [apply (with_heap_lookup _ _ _ _ H)|].
  unfold prepared, validated_status. simpl.
  destruct (strip (subject e)), (strip (body e)), (sender e), (recipients e);
    simpl; split; intros Hc; try reflexivity;
    try (exfalso; apply Hc; auto; fail);
    try (destruct Hc as [Hc|[Hc|[Hc|Hc]]]; discriminate).
Qed.

Lemma prepare_status_law_witness :
  heap demo_world !! 0 = Some demo_email /\
  exists w' e',
    prepare 0 demo_world = (Ok tt, w') /\ heap w' !! 0 = Some e' /\
    (strip (subject demo_email) = [] \/ strip (body demo_email) = [] \/
     sender demo_email = None \/ recipients demo_email = []
     -> status e' = INVALID) /\
    (~ (strip (subject demo_email) = [] \/ strip (body demo_email) = [] \/
        sender demo_email = None \/ recipients demo_email = [])
     -> status e' = READY).
Proof.
  split; [reflexivity|].
  apply (prepare_status_law demo_world 0 demo_email). reflexivity.
Defined.

(** C5. Prepare idempotence: preparing a message twice leaves exactly the
    subject, body, short_body and status that preparing it once leaves. *)
Theorem prepare_twice_same (w : World) (l : loc) (e : Email) :
  heap w !! l = Some e ->
  exists w1 w2 e1 e2,
    prepare l w = (Ok tt, w1) /\ heap w1 !! l = Some e1 /\
    (prepare l ;; prepare l) w = (Ok tt, w2) /\ heap w2 !! l = Some e2 /\
    subject e2 = subject e1 /\ body e2 = body e1 /\
    short_body e2 = short_body e1 /\ status e2 = status e1.
Proof.
  intros H.
  pose proof (with_heap_lookup w l e (prepared e) H) as H1.
  exists (with_heap (<[l := prepared e]> (heap w)) w),
         (with_heap (<[l := prepared e]> (heap w)) w),
         (prepared e), (prepared e).
  split; [apply (prepare_run _ _ _ H)|].
  split; [exact H1|].
  split.
  - rewrite (bind_run _ _ _ _ _ (prepare_run _ _ _ H)).
    rewrite (prepare_run _ _ _ H1), with_heap_again, prepared_idempotent.
    reflexivity.
  - split; [exact H1|]. repeat split.
Qed.

Lemma prepare_twice_same_witness :
  heap demo_world !! 0 = Some demo_email /\
  exists w1 w2 e1 e2,
    prepare 0 demo_world = (Ok tt, w1) /\ heap w1 !! 0 = Some e1 /\
    (prepare 0 ;; prepare 0) demo_world = (Ok tt, w2) /\
    heap w2 !! 0 = Some e2 /\
    subject e2 = subject e1 /\ body e2 = body e1 /\
    short_body e2 = short_body e1 /\ status e2 = status e1.
Proof.
  split; [reflexivity|].
  apply (prepare_twice_same demo_world 0 demo_email). reflexivity.
Defined.

(** C6. Short-body computation: after [prepare], short_body is the first
    20 characters of the trimmed body with every whitespace run collapsed
    to one space, followed by "..." exactly when the collapsed text is
    longer than 20 characters. *)
Theorem prepare_short_body (w : World) (l : loc) (e : Email) :
  heap w !! l = Some e ->
  exists w' e',
    prepare l w = (Ok tt, w') /\ heap w' !! l = Some e' /\
    let collapsed := collapse_runs (strip (body e)) in
    short_body e'
    = Some (take 20 collapsed
            ++ (if decide (20 < length collapsed) then py "..." else [])).
Proof.
  intros H. eexists _, (prepared e).
  split; [apply (prepare_run _ _ _ H)|].
  split; [apply (with_heap_lookup _ _ _ _ H)|].
  unfold prepared, shortened.
  cbn [short_body body with_status with_short_body with_body with_subject].
  rewrite (join_split_collapse _ (strip_trimmed (body e))).
  destruct (decide (20 < length (collapse_runs (strip (body e))))) as [Hlt|Hge].
  - apply Nat.ltb_lt in Hlt. rewrite Hlt. reflexivity.
  - apply Nat.ltb_nlt in Hge. rewrite Hge. reflexivity.
Qed.

Lemma prepare_short_body_witness :
  heap demo_world !! 0 = Some demo_email /\
  exists w' e',
    prepare 0 demo_world = (Ok tt, w') /\ heap w' !! 0 = Some e' /\
    let collapsed := collapse_runs (strip (body demo_email)) in
    short_body e'
    = Some (take 20 collapsed
            ++ (if decide (20 < length collapsed) then py "..." else [])).
Proof.
  split; [reflexivity|].
  apply (prepare_short_body demo_world 0 demo_email). reflexivity.
Defined.

(** ** What send_email computes *)

Lemma outcomes_lookup e clock n rs i r :
  rs !! i = Some r ->
  outcomes e clock n rs !! i = Some (outcome e r (clock (n + i))).
Proof.
  revert n i. induction rs as [|r0 rest IH]; intros n i H; [discriminate|].
  destruct i as [|i]; simpl in *.
  - injection H as ->. rewrite Nat.add_0_r. reflexivity.
  - rewrite (IH (S n) i H). do 3 f_equal. lia.
Qed.

Lemma insert_last (h : list Email) (x y : Email) :
  <[length h := y]> (h ++ [x]) = h ++ [y].
Proof.
  replace (length h) with (length h + 0) by lia.
  rewrite insert_app_r. reflexivity.
Qed.

Lemma lookup_last (h : list Email) (x : Email) :
  (h ++ [x]) !! length h = Some x.
Proof. apply list_lookup_middle. reflexivity. Qed.

Lemma deepcopy_run (l : loc) (w : World) (e : Email) :
  heap w !! l = Some e ->
  deepcopy l w = (Ok (length (heap w)), with_heap (heap w ++ [e]) w).
Proof.
  intros H. unfold deepcopy. rewrite (bind_run _ _ _ _ _ (load_run _ _ _ H)).
  reflexivity.
Qed.

Lemma send_email_loop_run (email : loc) (e : Email) (rs : list EmailAddress) :
  forall (result : list loc) (w : World),
    heap w !! email = Some e ->
    send_email_loop email rs result w
    = (Ok (result ++ seq (length (heap w)) (length rs)),
       {| heap := heap w ++ outcomes e (wall w) (ticks w) rs;
          wall := wall w; ticks := ticks w + length rs;
          send_log := send_log w |}).
Proof.
  induction rs as [|r rest IH]; intros result w H.
  - simpl. unfold ret. rewrite !app_nil_r, Nat.add_0_r.
    destruct w; reflexivity.
  - cbn [send_email_loop].
    rewrite (bind_run _ _ _ _ _ (deepcopy_run _ _ _ H)).
    erewrite bind_run by (apply setattr_run; simpl; apply lookup_last).
    cbn [with_heap heap wall ticks send_log]. rewrite insert_last.
    unfold bind at 1.
    cbn [datetime_now heap wall ticks send_log].
    erewrite bind_run by (apply setattr_run; simpl; apply lookup_last).
    cbn [with_heap heap wall ticks send_log]. rewrite insert_last.
    erewrite bind_run
      by (apply (getattr_run status email _ e); simpl;
          apply lookup_app_l_Some, H).
    assert (Hres : forall w0 : World,
               heap w0 !! length (heap w) = Some
                 (with_date (Some (wall w (ticks w))) (with_recipients [r] e)) ->
               (if bool_decide (status e = READY)
                then setattr (with_status SENT) (length (heap w))
                else setattr (with_status FAILED) (length (heap w))) w0
               = (Ok tt, with_heap (<[length (heap w) :=
                                       outcome e r (wall w (ticks w))]>
                                      (heap w0)) w0)).
    { intros w0 H0. unfold outcome, resolved.
      destruct (status e); simpl; apply (setattr_run _ _ _ _ H0). }
    erewrite bind_run by (apply Hres; simpl; apply lookup_last).
    cbn [with_heap heap wall ticks send_log]. rewrite insert_last.
    rewrite IH by (simpl; apply lookup_app_l_Some, H).
    cbn [with_heap heap wall ticks send_log length outcomes].
    rewrite length_app. simpl length.
    rewrite <- !app_assoc. simpl.
    replace (length (heap w) + 1) with (S (length (heap w))) by lia.
    replace (ticks w + S (length rest)) with (S (ticks w + length rest)) by lia.
    reflexivity.
Qed.

Lemma send_email_run (email : loc) (w : World) (e : Email) :
  heap w !! email = Some e ->
  send_email email w
  = (Ok (seq (length (heap w)) (length (recipients e))),
     {| heap := heap w ++ outcomes e (wall w) (ticks w) (recipients e);
        wall := wall w; ticks := ticks w + length (recipients e);
        send_log := send_log w |}).
Proof.
  intros H. unfold send_email.
  rewrite (bind_run _ _ _ _ _ (getattr_run recipients _ _ _ H)).
  apply (send_email_loop_run email e (recipients e) [] w H).
Qed.

(** The [i]-th copy sits at the [i]-th fresh location. *)
Lemma outcome_at (w : World) (e : Email) (i : nat) (r : EmailAddress) :
  recipients e !! i = Some r ->
  seq (length (heap w)) (length (recipients e)) !! i
  = Some (length (heap w) + i)
  /\ (heap w ++ outcomes e (wall w) (ticks w) (recipients e))
     !! (length (heap w) + i)
     = Some (outcome e r (wall w (ticks w + i))).
Proof.
  intros Hr. split.
  - apply lookup_seq. split; [reflexivity|]. eapply lookup_lt_Some, Hr.
  - rewrite lookup_app_r by lia.
    replace (length (heap w) + i - length (heap w)) with i by lia.
    apply outcomes_lookup, Hr.
Qed.

(** ** Delivery *)

(** C1. Fan-out law: [send_email] returns one copy per recipient of the
    source message, the i-th copy holding exactly the i-th recipient (no
    copy when there is no recipient), every copy is an object of its own,
    and the source message has the status and the timestamp it had before
    the call. *)
Theorem send_email_fan_out (w : World) (email : loc) (e : Email) :
  heap w !! email = Some e ->
  exists results w',
    send_email email w = (Ok results, w') /\
    length results = length (recipients e) /\
    (forall i r, recipients e !! i = Some r ->
       exists l copy,
         results !! i = Some l /\ l <> email /\
         heap w' !! l = Some copy /\ recipients copy = [r]) /\
    (recipients e = [] -> results = []) /\
    exists e', heap w' !! email = Some e' /\
               status e' = status e /\ date e' = date e.
Proof.
  intros H. eexists _, _. split; [apply (send_email_run _ _ _ H)|].
  split; [apply length_seq|]. split; [|split].
  - intros i r Hr. destruct (outcome_at w e i r Hr) as [Hl Hc].
    exists (length (heap w) + i), (outcome e r (wall w (ticks w + i))).
    split; [exact Hl|]. split; [|split; [exact Hc|reflexivity]].
    apply lookup_lt_Some in H. lia.
  - intros ->. reflexivity.
  - exists e. split; [|split; reflexivity].
    simpl. apply lookup_app_l_Some, H.
Qed.

Lemma send_email_fan_out_witness :
  heap demo_world !! 0 = Some demo_email /\
  exists results w',
    send_email 0 demo_world = (Ok results, w') /\
    length results = length (recipients demo_email) /\
    (forall i r, recipients demo_email !! i = Some r ->
       exists l copy,
         results !! i = Some l /\ l <> 0 /\
         heap w' !! l = Some copy /\ recipients copy = [r]) /\
    (recipients demo_email = [] -> results = []) /\
    exists e', heap w' !! 0 = Some e' /\
               status e' = status demo_email /\ date e' = date demo_email.
Proof.
  split; [reflexivity|].
  apply (send_email_fan_out demo_world 0 demo_email). reflexivity.
Defined.

(** C2. Status resolution law: [send_email] returns normally whatever the
    state of the message; every copy has status SENT when the source
    status is READY at the call, and FAILED for every other source status
    (DRAFT, INVALID, FAILED, SENT). *)
Theorem send_email_status_resolution (w : World) (email : loc) (e : Email) :
  heap w !! email = Some e ->
  exists results w',
    send_email email w = (Ok results, w') /\
    length results = length (recipients e) /\
    forall l, In l results ->
      exists copy,
        heap w' !! l = Some copy /\
        status copy = match status e with
                      | READY => SENT
                      | DRAFT | INVALID | FAILED | SENT => FAILED
                      end.
Proof.
  intros H. eexists _, _. split; [apply (send_email_run _ _ _ H)|].
  split; [apply length_seq|].
  intros l Hl. apply in_seq in Hl.
  destruct (lookup_lt_is_Some_2 (recipients e) (l - length (heap w)))
    as [r Hr]; [lia|].
  destruct (outcome_at w e _ r Hr) as [_ Hc].
  replace (length (heap w) + (l - length (heap w))) with l in Hc by lia.
  eexists. split; [exact Hc|].
  simpl. destruct (status e); reflexivity.
Qed.

Lemma send_email_status_resolution_witness :
  heap demo_world !! 0 = Some demo_email /\
  exists results w',
    send_email 0 demo_world = (Ok results, w') /\
    length results = length (recipients demo_email) /\
    forall l, In l results ->
      exists copy,
        heap w' !! l = Some copy /\
        status copy = match status demo_email with
                      | READY => SENT
                      | DRAFT | INVALID | FAILED | SENT => FAILED
                      end.
Proof.
  split; [reflexivity|].
  apply (send_email_status_resolution demo_world 0 demo_email). reflexivity.
Defined.

(** ** Addresses *)

Lemma contains_In (c : ascii) (s : pystr) : contains c s = true <-> In c s.
Proof.
  unfold contains. rewrite existsb_exists. split.
  - intros [x [Hin Heq]]. apply Ascii.eqb_eq in Heq. subst x. exact Hin.
  - intros Hin. exists c. split; [exact Hin|apply Ascii.eqb_refl].
Qed.

Lemma endswith_suffix (s suf : pystr) :
  endswith s suf = true <-> exists p, s = p ++ suf.
Proof.
  unfold endswith, pystr_eqb. rewrite andb_true_iff, Nat.leb_le.
  rewrite bool_decide_eq_true. split.
  - intros [_ Hd]. exists (take (length s - length suf) s).
    rewrite <- (take_drop (length s - length suf) s) at 1.
    f_equal. exact Hd.
  - intros [p ->]. rewrite length_app. split; [lia|].
    apply drop_app_length'. lia.
Qed.

Lemma allowed_suffix_endswith (v : pystr) :
  existsb (endswith v) allowed_tlds = true <-> has_allowed_suffix v.
Proof.
  rewrite existsb_exists. unfold has_allowed_suffix. split.
  - intros [tld [Hin He]]. apply endswith_suffix in He as [p Hp].
    exists p, tld. split; assumption.
  - intros [p [tld [Hin Hp]]]. exists tld. split; [exact Hin|].
    apply endswith_suffix. exists p. exact Hp.
Qed.

(** What follows a separator of a value with an allowed suffix is not
    empty. *)
Lemma suffix_after_separator (name domain : pystr) :
  has_allowed_suffix (name ++ "@"%char :: domain) -> domain <> [].
Proof.
  intros [p [tld [Hin Hv]]] ->.
  assert (Hl : last (p ++ tld) = Some "@"%char).
  { rewrite <- Hv. apply (last_snoc "@"%char name). }
  simpl in Hin. destruct Hin as [<-|[<-|[<-|[]]]];
    rewrite last_app in Hl; vm_compute in Hl; discriminate.
Qed.

Lemma EmailAddress_init_Ok (raw : pystr) (a : EmailAddress) :
  EmailAddress_init raw = Ok a <->
  a = {| _address := _normalize raw |} /\
  contains "@" (_normalize raw) = true /\
  existsb (endswith (_normalize raw)) allowed_tlds = true.
Proof.
  unfold EmailAddress_init, _validate.
  destruct (contains "@" (_normalize raw)); cbn [negb].
  - destruct (existsb (endswith (_normalize raw)) allowed_tlds); cbn [negb].
    + split; [intros H; inversion H; auto|intros [-> _]; reflexivity].
    + split; [discriminate|intros [_ [_ Hf]]; discriminate].
  - split; [discriminate|intros [_ [Hf _]]; discriminate].
Qed.

Lemma split_sep_absent (sep : ascii) (s : pystr) :
  ~ In sep s -> split_sep sep s = [s].
Proof.
  induction s as [|c r IH]; intros Hn; simpl; [reflexivity|].
  destruct (Ascii.eqb c sep) eqn:Hc.
  - apply Ascii.eqb_eq in Hc. subst c. exfalso. apply Hn. left. reflexivity.
  - rewrite IH; [reflexivity|]. intros Hin. apply Hn. right. exact Hin.
Qed.

Lemma split_sep_first (sep : ascii) (name rest : pystr) :
  ~ In sep name ->
  split_sep sep (name ++ sep :: rest) = name :: split_sep sep rest.
Proof.
  induction name as [|c r IH]; intros Hn; simpl.
  - rewrite Ascii.eqb_refl. reflexivity.
  - destruct (Ascii.eqb c sep) eqn:Hc.
    + apply Ascii.eqb_eq in Hc. subst c. exfalso. apply Hn. left. reflexivity.
    + rewrite IH; [reflexivity|]. intros Hin. apply Hn. right. exact Hin.
Qed.

(** With exactly one separator, [masked] shows at most the first two
    characters of the local part, then the stars, the separator and the
    domain. *)
Lemma masked_one_separator (name domain : pystr) :
  ~ In "@"%char name -> ~ In "@"%char domain ->
  masked {| _address := name ++ "@"%char :: domain |}
  = Ok (take 2 name ++ py "***@" ++ domain).
Proof.
  intros Hn Hd. unfold masked. simpl _address.
  rewrite (split_sep_first _ _ _ Hn), (split_sep_absent _ _ Hd). reflexivity.
Qed.

(** With two separators or more, [masked] raises. *)
Lemma masked_two_separators (name middle rest : pystr) :
  ~ In "@"%char name -> ~ In "@"%char middle ->
  exists msg,
    masked {| _address := name ++ "@"%char :: middle ++ "@"%char :: rest |}
    = Raise (ValueError msg).
Proof.
  intros Hn Hm. unfold masked. simpl _address.
  rewrite (split_sep_first _ _ _ Hn), (split_sep_first _ _ _ Hm).
  destruct (split_sep "@" rest) as [|x xs] eqn:Hs.
  - destruct rest; simpl in Hs; [discriminate|].
    destruct (Ascii.eqb a "@"); [discriminate|].
    destruct (split_sep "@" rest); discriminate.
  - eexists. reflexivity.
Qed.

(** C3, as stated, fails: an address with an empty local part and an
    address with two separators are both constructed. *)
Lemma init_accepts_ill_formed :
  (EmailAddress_init (py "@a.com") = Ok {| _address := py "@a.com" |}
   /\ ~ well_formed (_normalize (py "@a.com")))
  /\ (EmailAddress_init (py "a@b@c.com") = Ok {| _address := py "a@b@c.com" |}
      /\ ~ well_formed (_normalize (py "a@b@c.com"))).
Proof.
  split; (split; [reflexivity|]).
  - intros [[name [domain [Hv [Hn [_ [Hne _]]]]]] _].
    vm_compute in Hv. destruct name as [|c n]; [congruence|].
    simpl in Hv. injection Hv as Hc _. apply Hn. left. congruence.
  - intros [[name [domain [Hv [Hn [Hd [Hne _]]]]]] _].
    vm_compute in Hv. destruct name as [|c n]; [congruence|].
    simpl in Hv. injection Hv as _ Hv. destruct n as [|c2 n2].
    + simpl in Hv. injection Hv as Hv. apply Hd. rewrite <- Hv.
      right. left. reflexivity.
    + simpl in Hv. injection Hv as Hc _. apply Hn. right. left. congruence.
Qed.

(** C3, amended. Construction succeeds only when the normalized (trimmed,
    lowercased) value contains an @ separator followed by a non-empty
    domain part and ends with one of the suffixes .com, .ru, .net; the
    object then holds exactly that value.  A value without separator, or
    without an allowed suffix, fails construction with a ValueError. *)
Theorem init_validation (raw : pystr) :
  (forall a, EmailAddress_init raw = Ok a ->
     value a = _normalize raw /\
     (exists name domain,
        value a = name ++ "@"%char :: domain /\ domain <> []) /\
     has_allowed_suffix (value a)) /\
  (~ In "@"%char (_normalize raw) \/ ~ has_allowed_suffix (_normalize raw) ->
   exists msg, EmailAddress_init raw = Raise (ValueError msg)).
Proof.
  split.
  - intros a Ha. apply EmailAddress_init_Ok in Ha as [-> [Hat Hsuf]].
    apply contains_In in Hat. apply allowed_suffix_endswith in Hsuf.
    unfold value. simpl _address. split; [reflexivity|]. split; [|exact Hsuf].
    destruct (in_split _ _ Hat) as [name [domain Hv]].
    exists name, domain. split; [exact Hv|].
    apply (suffix_after_separator name). rewrite <- Hv. exact Hsuf.
  - intros Hbad. unfold EmailAddress_init, _validate.
    destruct (contains "@" (_normalize raw)) eqn:Hat; cbn [negb].
    + destruct (existsb (endswith (_normalize raw)) allowed_tlds) eqn:Hsuf;
        cbn [negb]; [|eexists; reflexivity].
      exfalso. apply contains_In in Hat.
      apply allowed_suffix_endswith in Hsuf.
      destruct Hbad as [Hbad|Hbad]; apply Hbad; assumption.
    + eexists. reflexivity.
Qed.

Lemma init_validation_witness :
  (value {| _address := py "user@example.com" |}
   = _normalize (py "  UsEr@Example.COM  ") /\
   (exists name domain,
      value {| _address := py "user@example.com" |}
      = name ++ "@"%char :: domain /\ domain <> []) /\
   has_allowed_suffix (value {| _address := py "user@example.com" |}))
  /\ exists msg, EmailAddress_init (py "invalid_email") = Raise (ValueError msg).
Proof.
  split.
  - apply (proj1 (init_validation (py "  UsEr@Example.COM  "))). reflexivity.
  - apply (proj2 (init_validation (py "invalid_email"))). left.
    intros H. apply contains_In in H. vm_compute in H. discriminate H.
Defined.

(** C8. Normalization law: the value of a constructed address is the raw
    string without its surrounding whitespace, every character
    lowercased. *)
Theorem init_normalizes (raw : pystr) (a : EmailAddress) :
  EmailAddress_init raw = Ok a ->
  exists pre mid suf,
    raw = pre ++ mid ++ suf /\
    all_ws pre = true /\ all_ws suf = true /\ trimmed mid /\
    value a = map lower_char mid.
Proof.
  intros Ha. apply EmailAddress_init_Ok in Ha as [-> _].
  destruct (strip_decompose raw) as [pre [suf [Hraw [Hpre Hsuf]]]].
  exists pre, (strip raw), suf.
  split; [exact Hraw|]. split; [exact Hpre|]. split; [exact Hsuf|].
  split; [apply strip_trimmed|reflexivity].
Qed.

Lemma init_normalizes_witness :
  EmailAddress_init (py "  UsEr@Example.COM  ")
  = Ok {| _address := py "user@example.com" |}
  /\ exists pre mid suf,
       py "  UsEr@Example.COM  " = pre ++ mid ++ suf /\
       all_ws pre = true /\ all_ws suf = true /\ trimmed mid /\
       value {| _address := py "user@example.com" |} = map lower_char mid.
Proof.
  split; [reflexivity|].
  apply (init_normalizes (py "  UsEr@Example.COM  ")). reflexivity.
Defined.

(** C7, at the failing input: the address a@b@c.com is constructed, and
    its [masked] raises ValueError instead of returning a masked text. *)
Theorem masked_raises_after_init :
  EmailAddress_init (py "a@b@c.com") = Ok {| _address := py "a@b@c.com" |}
  /\ masked {| _address := py "a@b@c.com" |}
     = Raise (ValueError (py "too many values to unpack (expected 2)")).
Proof. split; reflexivity. Qed.

(** C10. The masked view is not total over the constructible addresses:
    some raw string with more than one @ and an allowed suffix is
    accepted by the constructor, and [masked] then raises. *)
Theorem masked_not_total :
  exists (raw : pystr) (a : EmailAddress) (msg : pystr),
    1 < count_occ ascii_dec raw "@"%char /\
    has_allowed_suffix raw /\
    EmailAddress_init raw = Ok a /\
    masked a = Raise (ValueError msg).
Proof.
  exists (py "x@y@z.net"), {| _address := py "x@y@z.net" |}.
  eexists. split; [vm_compute; lia|]. split.
  - exists (py "x@y@z"), (py ".net"). split; [|reflexivity].
    right. right. left. reflexivity.
  - split; reflexivity.
Qed.

(** ** Logging delivery *)

Lemma sender_masked_run (email : loc) (w : World) (e : Email)
    (a : EmailAddress) (from : pystr) :
  heap w !! email = Some e -> sender e = Some a -> masked a = Ok from ->
  sender_masked email w = (Ok from, w).
Proof.
  intros H Hs Hm. unfold sender_masked.
  rewrite (bind_run _ _ _ _ _ (getattr_run sender _ _ _ H)), Hs.
  unfold lift. rewrite Hm. reflexivity.
Qed.

Lemma first_recipient_masked_run (msg : loc) (w : World) (c : Email)
    (r : EmailAddress) :
  heap w !! msg = Some c -> recipients c = [r] -> maskable r ->
  first_recipient_masked msg w = (Ok (masked_text r), w).
Proof.
  intros H Hr [m Hm]. unfold first_recipient_masked, masked_text.
  rewrite (bind_run _ _ _ _ _ (getattr_run recipients _ _ _ H)), Hr.
  unfold lift. rewrite Hm. reflexivity.
Qed.

Lemma log_loop_run (email : loc) (e : Email) (a : EmailAddress)
    (from : pystr) (st : Status) (h : list Email) (clock : nat -> datetime) :
  h !! email = Some e -> sender e = Some a -> masked a = Ok from ->
  forall (results : list loc) (rs : list EmailAddress),
    Forall2 (fun l r => exists c, h !! l = Some c /\ recipients c = [r]
                                  /\ status c = st) results rs ->
    Forall maskable rs ->
    forall (n : nat) (text : pystr),
      log_loop email results
        {| heap := h; wall := clock; ticks := n; send_log := Some text |}
      = (Ok tt,
         {| heap := h; wall := clock; ticks := n + length results;
            send_log := Some (text ++ log_text clock n from st rs) |}).
Proof.
  intros H Hs Hm results rs Hall.
  induction Hall as [|l r results rs [c [Hc [Hr Hst]]] _ IH];
    intros Hmask n text.
  - simpl. unfold ret. rewrite Nat.add_0_r, app_nil_r. reflexivity.
  - apply Forall_cons in Hmask as [Hr_ok Hrest].
    cbn [log_loop]. unfold bind at 1.
    cbn [datetime_now heap wall ticks send_log].
    erewrite bind_run by (apply (sender_masked_run _ _ e a from); eassumption).
    erewrite bind_run
      by (apply (first_recipient_masked_run _ _ c r); eassumption).
    erewrite bind_run by (apply (getattr_run status _ _ c); exact Hc).
    unfold bind at 1. cbn [file_write heap wall ticks send_log default].
    rewrite (IH Hrest). rewrite Hst. cbn [length log_text].
    rewrite <- app_assoc.
    replace (S n + length results) with (n + S (length results)) by lia.
    reflexivity.
Qed.

(** X19. When the sender and every recipient can be masked, the logging
    service returns what the plain service returns, leaves the same
    objects, and appends one line per copy to send.log. *)
Lemma logging_send_email_maskable (w : World) (email : loc) (e : Email)
    (a : EmailAddress) (from : pystr) :
  heap w !! email = Some e -> sender e = Some a -> masked a = Ok from ->
  Forall maskable (recipients e) ->
  exists results w1 w',
    send_email email w = (Ok results, w1) /\
    logging_send_email email w = (Ok results, w') /\
    heap w' = heap w1 /\
    send_log w'
    = Some (default [] (send_log w)
            ++ log_text (wall w) (ticks w + length (recipients e)) from
                 (resolved (status e)) (recipients e)).
Proof.
  intros H Hs Hm Hmask. eexists _, _, _.
  split; [apply (send_email_run _ _ _ H)|].
  unfold logging_send_email.
  rewrite (bind_run _ _ _ _ _ (send_email_run _ _ _ H)).
  unfold bind at 1. cbn [open_append heap wall ticks send_log].
  erewrite bind_run.
  2:{ apply (log_loop_run email e a from (resolved (status e)));
        [apply lookup_app_l_Some, H|exact Hs|exact Hm| |exact Hmask].
      apply Forall2_same_length_lookup_2.
      - rewrite length_seq. reflexivity.
      - intros i l r Hl Hr. destruct (outcome_at w e i r Hr) as [Hl' Hc].
        rewrite Hl' in Hl. injection Hl as <-.
        eexists. split; [exact Hc|]. split; reflexivity. }
  unfold ret. split; [reflexivity|]. split; reflexivity.
Qed.

(** C9, at the failing input: for a prepared message whose sender is the
    constructed address a@b@c.com, the plain service returns one copy, and
    the logging service raises ValueError while formatting the first
    line: it returns nothing and leaves send.log created and empty. *)
Theorem logging_raises_on_sender :
  EmailAddress_init (py "a@b@c.com") = Ok two_separators
  /\ fst (prepare 0 bad_sender_world) = Ok tt
  /\ heap (snd (prepare 0 bad_sender_world)) = heap bad_sender_world
  /\ fst (send_email 0 bad_sender_world) = Ok [1]
  /\ fst (logging_send_email 0 bad_sender_world)
     = Raise (ValueError (py "too many values to unpack (expected 2)"))
  /\ send_log (snd (logging_send_email 0 bad_sender_world)) = Some [].
Proof. repeat split. Qed.


(** * Further properties of the code *)

(** ** Characters *)

Lemma isspace_lower_char (c : ascii) : isspace (lower_char c) = isspace c.
Proof. destruct c as [[] [] [] [] [] [] [] []]; reflexivity. Qed.

Lemma lower_char_idempotent (c : ascii) :
  lower_char (lower_char c) = lower_char c.
Proof. destruct c as [[] [] [] [] [] [] [] []]; reflexivity. Qed.

Lemma lower_idempotent (s : pystr) : lower (lower s) = lower s.
Proof.
  unfold lower. rewrite map_map. apply map_ext. apply lower_char_idempotent.
Qed.

Lemma lstrip_lower (s : pystr) : lstrip (lower s) = lower (lstrip s).
Proof.
  induction s as [|c r IH]; [reflexivity|].
  simpl. rewrite isspace_lower_char. destruct (isspace c); [exact IH|reflexivity].
Qed.

Lemma rev_lower (s : pystr) : rev (lower s) = lower (rev s).
Proof. unfold lower. symmetry. apply map_rev. Qed.

Lemma strip_lower (s : pystr) : strip (lower s) = lower (strip s).
Proof.
  unfold strip, rstrip.
  rewrite lstrip_lower, rev_lower, lstrip_lower, rev_lower. reflexivity.
Qed.

Lemma _normalize_idempotent (raw : pystr) :
  _normalize (_normalize raw) = _normalize raw.
Proof.
  unfold _normalize. rewrite strip_lower, strip_idempotent.
  apply lower_idempotent.
Qed.

(** ** More on addresses *)

Lemma starts_ws_lower (s : pystr) : starts_ws (lower s) = starts_ws s.
Proof. destruct s as [|c r]; [reflexivity|]. apply isspace_lower_char. Qed.

Lemma trimmed_lower (s : pystr) : trimmed s -> trimmed (lower s).
Proof.
  unfold trimmed, ends_ws. intros [Hs He].
  rewrite rev_lower, !starts_ws_lower. split; assumption.
Qed.

Lemma split_sep_nonempty (sep : ascii) (s : pystr) : split_sep sep s <> [].
Proof.
  destruct s as [|c r]; simpl; [discriminate|].
  destruct (Ascii.eqb c sep); [discriminate|].
  destruct (split_sep sep r); discriminate.
Qed.

Lemma split_sep_length (sep : ascii) (s : pystr) :
  length (split_sep sep s) = S (count_occ ascii_dec s sep).
Proof.
  induction s as [|c r IH]; [reflexivity|]. simpl split_sep.
  destruct (Ascii.eqb c sep) eqn:Hc.
  - apply Ascii.eqb_eq in Hc. subst c.
    rewrite count_occ_cons_eq by reflexivity. simpl. rewrite IH. reflexivity.
  - apply Ascii.eqb_neq in Hc. rewrite count_occ_cons_neq by exact Hc.
    destruct (split_sep sep r) as [|x xs]; [discriminate IH|exact IH].
Qed.

Lemma split_sep_join (sep : ascii) (s : pystr) :
  join [sep] (split_sep sep s) = s.
Proof.
  induction s as [|c r IH]; [reflexivity|]. simpl split_sep.
  destruct (Ascii.eqb c sep) eqn:Hc.
  - apply Ascii.eqb_eq in Hc. subst c.
    rewrite join_cons by apply split_sep_nonempty. rewrite IH. reflexivity.
  - destruct (split_sep sep r) as [|x xs] eqn:Hs.
    + exfalso. apply (split_sep_nonempty sep r Hs).
    + rewrite <- IH. destruct xs; reflexivity.
Qed.

(** X1. An address is rebuilt from its printed form: constructing again
    from the text of a constructed address succeeds and gives the same
    address. *)
Theorem init_repr_round_trip (raw : pystr) (a : EmailAddress) :
  EmailAddress_init raw = Ok a ->
  EmailAddress_init (EmailAddress_repr a) = Ok a.
Proof.
  intros Ha. apply EmailAddress_init_Ok in Ha as [-> [Hat Hsuf]].
  apply EmailAddress_init_Ok. unfold EmailAddress_repr, value. simpl _address.
  rewrite _normalize_idempotent. auto.
Qed.

Lemma init_repr_round_trip_witness :
  EmailAddress_init (py "  UsEr@Example.COM  ")
  = Ok {| _address := py "user@example.com" |}
  /\ EmailAddress_init (EmailAddress_repr {| _address := py "user@example.com" |})
     = Ok {| _address := py "user@example.com" |}.
Proof.
  split; [reflexivity|].
  apply (init_repr_round_trip (py "  UsEr@Example.COM  ")). reflexivity.
Defined.

(** X2. The value of a constructed address has no surrounding whitespace
    and is left unchanged by lowercasing. *)
Theorem init_value_clean (raw : pystr) (a : EmailAddress) :
  EmailAddress_init raw = Ok a ->
  trimmed (value a) /\ lower (value a) = value a.
Proof.
  intros Ha. apply EmailAddress_init_Ok in Ha as [-> _].
  unfold value, _normalize. simpl _address. split.
  - apply trimmed_lower, strip_trimmed.
  - apply lower_idempotent.
Qed.

Lemma init_value_clean_witness :
  EmailAddress_init (py "  UsEr@Example.COM  ")
  = Ok {| _address := py "user@example.com" |}
  /\ trimmed (value {| _address := py "user@example.com" |})
  /\ lower (value {| _address := py "user@example.com" |})
     = value {| _address := py "user@example.com" |}.
Proof.
  split; [reflexivity|].
  apply (init_value_clean (py "  UsEr@Example.COM  ")). reflexivity.
Defined.

(** X3. [masked] returns a text exactly for the addresses that hold one
    separator; with none, or with more than one, it raises. *)
Theorem masked_defined_iff (a : EmailAddress) :
  maskable a <-> count_occ ascii_dec (_address a) "@"%char = 1.
Proof.
  pose proof (split_sep_length "@" (_address a)) as Hlen.
  unfold maskable, masked.
  destruct (split_sep "@" (_address a)) as [|x [|y [|z zs]]];
    simpl in Hlen; split.
  - intros [m Hm]. discriminate.
  - intros Hc. lia.
  - intros [m Hm]. discriminate.
  - intros Hc. lia.
  - intros _. lia.
  - intros _. eexists. reflexivity.
  - intros [m Hm]. discriminate.
  - intros Hc. lia.
Qed.

Lemma masked_defined_iff_witness :
  count_occ ascii_dec (_address {| _address := py "me@me.com" |}) "@"%char = 1
  /\ maskable {| _address := py "me@me.com" |}.
Proof.
  split; [reflexivity|].
  apply (proj2 (masked_defined_iff {| _address := py "me@me.com" |})).
  reflexivity.
Defined.

(** X4. For an address with one separator, the masked text is at most the
    first two characters of what precedes the separator, then the stars,
    the separator and all that follows it; it is at most six characters
    longer than the domain part. *)
Theorem masked_single_separator (a : EmailAddress) :
  count_occ ascii_dec (_address a) "@"%char = 1 ->
  exists name domain,
    _address a = name ++ "@"%char :: domain /\
    masked a = Ok (take 2 name ++ py "***@" ++ domain) /\
    length (take 2 name ++ py "***@" ++ domain) <= length domain + 6.
Proof.
  intros Hc.
  pose proof (split_sep_length "@" (_address a)) as Hlen.
  pose proof (split_sep_join "@" (_address a)) as Hjoin.
  unfold masked.
  destruct (split_sep "@" (_address a)) as [|name [|domain [|z zs]]];
    simpl in Hlen; try lia.
  exists name, domain. split; [symmetry; exact Hjoin|]. split; [reflexivity|].
  rewrite !length_app, length_take.
  change (length (py "***@")) with 4. lia.
Qed.

Lemma masked_single_separator_witness :
  count_occ ascii_dec (_address {| _address := py "alexander@example.com" |})
    "@"%char = 1
  /\ exists name domain,
       _address {| _address := py "alexander@example.com" |}
       = name ++ "@"%char :: domain /\
       masked {| _address := py "alexander@example.com" |}
       = Ok (take 2 name ++ py "***@" ++ domain) /\
       length (take 2 name ++ py "***@" ++ domain) <= length domain + 6.
Proof.
  split; [reflexivity|].
  apply (masked_single_separator {| _address := py "alexander@example.com" |}).
  reflexivity.
Defined.

(** X5. Masking hides the local part beyond its second character: two
    addresses of one domain whose local parts agree on their first two
    characters have the same masked text. *)
Theorem masked_hides_local_part (name1 name2 domain : pystr) :
  ~ In "@"%char name1 -> ~ In "@"%char name2 -> ~ In "@"%char domain ->
  take 2 name1 = take 2 name2 ->
  masked {| _address := name1 ++ "@"%char :: domain |}
  = masked {| _address := name2 ++ "@"%char :: domain |}.
Proof.
  intros H1 H2 Hd Ht.
  rewrite (masked_one_separator name1 domain H1 Hd).
  rewrite (masked_one_separator name2 domain H2 Hd).
  rewrite Ht. reflexivity.
Qed.

Lemma masked_hides_local_part_witness :
  masked {| _address := py "alexander" ++ "@"%char :: py "example.com" |}
  = masked {| _address := py "alice" ++ "@"%char :: py "example.com" |}.
Proof.
  apply (masked_hides_local_part (py "alexander") (py "alice")
           (py "example.com"));
    try reflexivity;
    intros H; apply contains_In in H; vm_compute in H; discriminate H.
Defined.

(** X6. What a rejected address reports: a normalized value without
    separator raises "Invalid email: " followed by that value, whatever
    its suffix; one with a separator and no allowed suffix raises
    "Invalid email domain: " followed by that value. *)
Theorem init_error_messages (raw : pystr) :
  (~ In "@"%char (_normalize raw) ->
   EmailAddress_init raw
   = Raise (ValueError (py "Invalid email: " ++ _normalize raw)))
  /\ (In "@"%char (_normalize raw) -> ~ has_allowed_suffix (_normalize raw) ->
      EmailAddress_init raw
      = Raise (ValueError (py "Invalid email domain: " ++ _normalize raw))).
Proof.
  unfold EmailAddress_init, _validate. split.
  - intros Hn. destruct (contains "@" (_normalize raw)) eqn:Hat; cbn [negb].
    + exfalso. apply Hn, contains_In, Hat.
    + reflexivity.
  - intros Hi Hn. apply contains_In in Hi. rewrite Hi. cbn [negb].
    destruct (existsb (endswith (_normalize raw)) allowed_tlds) eqn:Hs;
      cbn [negb]; [|reflexivity].
    exfalso. apply Hn, allowed_suffix_endswith, Hs.
Qed.

Lemma init_error_messages_witness :
  EmailAddress_init (py " Invalid_Email.com ")
  = Raise (ValueError (py "Invalid email: " ++ _normalize (py " Invalid_Email.com ")))
  /\ EmailAddress_init (py "user@example.xyz")
     = Raise (ValueError (py "Invalid email domain: "
                          ++ _normalize (py "user@example.xyz"))).
Proof.
  split.
  - apply (proj1 (init_error_messages (py " Invalid_Email.com "))).
    intros H. apply contains_In in H. vm_compute in H. discriminate H.
  - apply (proj2 (init_error_messages (py "user@example.xyz"))).
    + apply contains_In. reflexivity.
    + intros H. apply allowed_suffix_endswith in H. vm_compute in H.
      discriminate H.
Defined.

(** ** More on the short body and on prepare *)

Lemma split_from_leading (pre t : pystr) :
  all_ws pre = true -> split_from [] (pre ++ t) = split_from [] t.
Proof.
  induction pre as [|c r IH]; intros H; [reflexivity|].
  simpl in H. apply andb_true_iff in H as [Hc Hr].
  simpl. rewrite Hc. apply IH, Hr.
Qed.

Lemma split_from_all_ws (word suf : pystr) :
  all_ws suf = true ->
  split_from word suf = match word with [] => [] | _ => [word] end.
Proof.
  revert word. induction suf as [|c r IH]; intros word H; [reflexivity|].
  simpl in H. apply andb_true_iff in H as [Hc Hr].
  simpl. rewrite Hc. destruct word; rewrite (IH [] Hr); reflexivity.
Qed.

Lemma split_from_trailing (word t suf : pystr) :
  all_ws suf = true -> split_from word (t ++ suf) = split_from word t.
Proof.
  intros H. revert word. induction t as [|c r IH]; intros word.
  - simpl. apply split_from_all_ws, H.
  - simpl. destruct (isspace c).
    + destruct word; rewrite (IH []); reflexivity.
    + apply IH.
Qed.

Lemma split_strip (s : pystr) : split s = split (strip s).
Proof.
  destruct (strip_decompose s) as [pre [suf [Hs [Hpre Hsuf]]]].
  unfold split. rewrite Hs at 1.
  rewrite (split_from_leading _ _ Hpre). apply split_from_trailing, Hsuf.
Qed.

(** [" ".join(s.split())] is the collapsed trimmed text, for every [s]. *)
Lemma join_split_any (s : pystr) :
  join (py " ") (split s) = collapse_runs (strip s).
Proof.
  rewrite split_strip. apply join_split_collapse, strip_trimmed.
Qed.

Lemma collapse_runs_spaces (s : pystr) :
  Forall (fun c => isspace c = true -> c = " "%char) (collapse_runs s).
Proof.
  induction s as [|c r IH]; simpl; [constructor|].
  destruct (isspace c) eqn:Hc.
  - destruct (starts_ws r); [exact IH|]. constructor; [reflexivity|exact IH].
  - constructor; [congruence|exact IH].
Qed.

(** X7. [add_short_body] on any body, trimmed or not, and for any limit:
    the summary is the first [limit] characters of the body with its
    surrounding whitespace removed and every whitespace run collapsed to
    one space, followed by "..." exactly when that text is longer than
    [limit]; the body and the other fields are left as they are. *)
Theorem add_short_body_any (w : World) (l : loc) (limit : nat) (e : Email) :
  heap w !! l = Some e ->
  exists w' e',
    add_short_body l limit w = (Ok tt, w') /\ heap w' !! l = Some e' /\
    (let collapsed := collapse_runs (strip (body e)) in
     short_body e'
     = Some (take limit collapsed
             ++ (if decide (limit < length collapsed) then py "..." else [])))
    /\ e' = with_short_body (short_body e') e.
Proof.
  intros H. eexists _, _.
  split; [apply (add_short_body_run _ _ _ _ H)|].
  split; [apply (with_heap_lookup _ _ _ _ H)|].
  cbn [short_body with_short_body]. split; [|reflexivity].
  unfold shortened. rewrite join_split_any.
  destruct (decide (limit < length (collapse_runs (strip (body e))))) as [Hlt|Hge].
  - apply Nat.ltb_lt in Hlt. rewrite Hlt. reflexivity.
  - apply Nat.ltb_nlt in Hge. rewrite Hge. reflexivity.
Qed.

Lemma add_short_body_any_witness :
  heap demo_world !! 0 = Some demo_email /\
  exists w' e',
    add_short_body 0 3 demo_world = (Ok tt, w') /\ heap w' !! 0 = Some e' /\
    (let collapsed := collapse_runs (strip (body demo_email)) in
     short_body e'
     = Some (take 3 collapsed
             ++ (if decide (3 < length collapsed) then py "..." else [])))
    /\ e' = with_short_body (short_body e') demo_email.
Proof.
  split; [reflexivity|].
  apply (add_short_body_any demo_world 0 3 demo_email). reflexivity.
Defined.

(** X8. The summary stored by [add_short_body] is at most [limit + 3]
    characters long and its only whitespace characters are plain spaces;
    when the collapsed body fits in [limit] characters the summary is the
    collapsed body itself. *)
Theorem add_short_body_bounded (w : World) (l : loc) (limit : nat) (e : Email) :
  heap w !! l = Some e ->
  exists w' e' text,
    add_short_body l limit w = (Ok tt, w') /\ heap w' !! l = Some e' /\
    short_body e' = Some text /\
    length text <= limit + 3 /\
    Forall (fun c => isspace c = true -> c = " "%char) text /\
    (length (collapse_runs (strip (body e))) <= limit ->
     text = collapse_runs (strip (body e))).
Proof.
  intros H. eexists _, _, _.
  split; [apply (add_short_body_run _ _ _ _ H)|].
  split; [apply (with_heap_lookup _ _ _ _ H)|].
  cbn [short_body with_short_body]. split; [reflexivity|].
  unfold shortened. rewrite join_split_any.
  set (c := collapse_runs (strip (body e))).
  split; [|split].
  - rewrite length_app, length_take.
    destruct (limit <? length c); simpl; lia.
  - apply Forall_app. split.
    + apply Forall_take, collapse_runs_spaces.
    + destruct (limit <? length c); [|constructor].
      repeat constructor; intros Hs; vm_compute in Hs; discriminate Hs.
  - intros Hle. apply Nat.ltb_ge in Hle. rewrite Hle, app_nil_r.
    apply take_ge. apply Nat.ltb_ge, Hle.
Qed.

Lemma add_short_body_bounded_witness :
  heap demo_world !! 0 = Some demo_email /\
  exists w' e' text,
    add_short_body 0 20 demo_world = (Ok tt, w') /\ heap w' !! 0 = Some e' /\
    short_body e' = Some text /\
    length text <= 20 + 3 /\
    Forall (fun c => isspace c = true -> c = " "%char) text /\
    (length (collapse_runs (strip (body demo_email))) <= 20 ->
     text = collapse_runs (strip (body demo_email))).
Proof.
  split; [reflexivity|].
  apply (add_short_body_bounded demo_world 0 20 demo_email). reflexivity.
Defined.

(** X9. What [prepare] leaves alone: it trims the subject and the body in
    place, keeps the sender, the recipients and the timestamp of the
    message, touches no other object, allocates nothing, and neither
    reads the clock nor writes the log. *)
Theorem prepare_frame (w : World) (l : loc) (e : Email) :
  heap w !! l = Some e ->
  exists w' e',
    prepare l w = (Ok tt, w') /\ heap w' !! l = Some e' /\
    subject e' = strip (subject e) /\ body e' = strip (body e) /\
    sender e' = sender e /\ recipients e' = recipients e /\
    date e' = date e /\
    length (heap w') = length (heap w) /\
    (forall l', l' <> l -> heap w' !! l' = heap w !! l') /\
    ticks w' = ticks w /\ send_log w' = send_log w.
Proof.
  intros H. eexists _, (prepared e).
  split; [apply (prepare_run _ _ _ H)|].
  split; [apply (with_heap_lookup _ _ _ _ H)|].
  do 5 (split; [reflexivity|]).
  split; [apply length_insert|]. split; [|split; reflexivity].
  intros l' Hne. simpl. apply list_lookup_insert_ne. congruence.
Qed.

Lemma prepare_frame_witness :
  heap demo_world !! 0 = Some demo_email /\
  exists w' e',
    prepare 0 demo_world = (Ok tt, w') /\ heap w' !! 0 = Some e' /\
    subject e' = strip (subject demo_email) /\
    body e' = strip (body demo_email) /\
    sender e' = sender demo_email /\ recipients e' = recipients demo_email /\
    date e' = date demo_email /\
    length (heap w') = length (heap demo_world) /\
    (forall l', l' <> 0 -> heap w' !! l' = heap demo_world !! l') /\
    ticks w' = ticks demo_world /\ send_log w' = send_log demo_world.
Proof.
  split; [reflexivity|].
  apply (prepare_frame demo_world 0 demo_email). reflexivity.
Defined.

(** ** More on delivery *)

(** X10. What a copy carries: the copy made for the i-th recipient has
    the subject, body, sender and short_body of the source, and its
    timestamp is the i-th clock reading of the call, so the copies are
    stamped in recipient order. *)
Theorem send_email_copy_fields (w : World) (email : loc) (e : Email) :
  heap w !! email = Some e ->
  exists results w',
    send_email email w = (Ok results, w') /\
    forall i r, recipients e !! i = Some r ->
      exists l copy,
        results !! i = Some l /\ heap w' !! l = Some copy /\
        subject copy = subject e /\ body copy = body e /\
        sender copy = sender e /\ short_body copy = short_body e /\
        date copy = Some (wall w (ticks w + i)).
Proof.
  intros H. eexists _, _. split; [apply (send_email_run _ _ _ H)|].
  intros i r Hr. destruct (outcome_at w e i r Hr) as [Hl Hc].
  eexists _, _. split; [exact Hl|]. split; [exact Hc|].
  repeat split.
Qed.

Lemma send_email_copy_fields_witness :
  heap demo_world !! 0 = Some demo_email /\
  exists results w',
    send_email 0 demo_world = (Ok results, w') /\
    forall i r, recipients demo_email !! i = Some r ->
      exists l copy,
        results !! i = Some l /\ heap w' !! l = Some copy /\
        subject copy = subject demo_email /\ body copy = body demo_email /\
        sender copy = sender demo_email /\
        short_body copy = short_body demo_email /\
        date copy = Some (wall demo_world (ticks demo_world + i)).
Proof.
  split; [reflexivity|].
  apply (send_email_copy_fields demo_world 0 demo_email). reflexivity.
Defined.

(** X11. What [send_email] leaves alone: every object that existed before
    the call is unchanged, the heap grows by exactly one object per
    recipient, the clock is read exactly once per recipient, and the log
    file is not touched. *)
Theorem send_email_frame (w : World) (email : loc) (e : Email) :
  heap w !! email = Some e ->
  exists results w',
    send_email email w = (Ok results, w') /\
    (forall l e0, heap w !! l = Some e0 -> heap w' !! l = Some e0) /\
    length (heap w') = length (heap w) + length (recipients e) /\
    ticks w' = ticks w + length (recipients e) /\
    send_log w' = send_log w.
Proof.
  intros H. eexists _, _. split; [apply (send_email_run _ _ _ H)|].
  simpl. split; [|split; [|split; reflexivity]].
  - intros l e0 Hl. apply lookup_app_l_Some, Hl.
  - rewrite length_app. f_equal.
    generalize (ticks w). induction (recipients e) as [|r rs IH]; intros n;
      simpl; [|rewrite IH]; reflexivity.
Qed.

Lemma send_email_frame_witness :
  heap demo_world !! 0 = Some demo_email /\
  exists results w',
    send_email 0 demo_world = (Ok results, w') /\
    (forall l e0, heap demo_world !! l = Some e0 -> heap w' !! l = Some e0) /\
    length (heap w') = length (heap demo_world) + length (recipients demo_email) /\
    ticks w' = ticks demo_world + length (recipients demo_email) /\
    send_log w' = send_log demo_world.
Proof.
  split; [reflexivity|].
  apply (send_email_frame demo_world 0 demo_email). reflexivity.
Defined.

(** X12. The copies are new and independent objects: the returned
    locations are pairwise distinct and none of them held an object
    before the call. *)
Theorem send_email_fresh (w : World) (email : loc) (e : Email) :
  heap w !! email = Some e ->
  exists results w',
    send_email email w = (Ok results, w') /\
    List.NoDup results /\
    forall l, In l results -> heap w !! l = None /\ l <> email.
Proof.
  intros H. eexists _, _. split; [apply (send_email_run _ _ _ H)|].
  split; [apply List.seq_NoDup|].
  intros l Hl. apply in_seq in Hl. split.
  - apply lookup_ge_None. lia.
  - apply lookup_lt_Some in H. lia.
Qed.

Lemma send_email_fresh_witness :
  heap demo_world !! 0 = Some demo_email /\
  exists results w',
    send_email 0 demo_world = (Ok results, w') /\
    List.NoDup results /\
    forall l, In l results -> heap demo_world !! l = None /\ l <> 0.
Proof.
  split; [reflexivity|].
  apply (send_email_fresh demo_world 0 demo_email). reflexivity.
Defined.

(** X13. Delivery is not repeatable: sending a copy that [send_email]
    returned, whatever the status of the original was, makes exactly one
    new copy and that copy is FAILED. *)
Theorem send_email_again_fails (w : World) (email : loc) (e : Email) :
  heap w !! email = Some e ->
  exists results w1,
    send_email email w = (Ok results, w1) /\
    forall l, In l results ->
      exists again w2 copy,
        send_email l w1 = (Ok [again], w2) /\
        heap w2 !! again = Some copy /\ status copy = FAILED.
Proof.
  intros H. eexists _, _. split; [apply (send_email_run _ _ _ H)|].
  intros l Hl. apply in_seq in Hl.
  destruct (lookup_lt_is_Some_2 (recipients e) (l - length (heap w)))
    as [r Hr]; [lia|].
  destruct (outcome_at w e _ r Hr) as [_ Hc].
  replace (length (heap w) + (l - length (heap w))) with l in Hc by lia.
  match goal with
  | |- context [send_email l ?w1] =>
      pose proof (send_email_run l w1 _ Hc) as Hrun
  end.
  cbn [heap wall ticks send_log recipients outcome with_status with_date
       with_recipients outcomes length seq] in Hrun.
  eexists _, _, _. split; [exact Hrun|]. split.
  - cbn [heap]. apply lookup_last.
  - simpl. destruct (status e); reflexivity.
Qed.

Lemma send_email_again_fails_witness :
  heap demo_world !! 0 = Some demo_email /\
  exists results w1,
    send_email 0 demo_world = (Ok results, w1) /\
    forall l, In l results ->
      exists again w2 copy,
        send_email l w1 = (Ok [again], w2) /\
        heap w2 !! again = Some copy /\ status copy = FAILED.
Proof.
  split; [reflexivity|].
  apply (send_email_again_fails demo_world 0 demo_email). reflexivity.
Defined.

(** X14. Prepare, then deliver: the copies carry the trimmed subject and
    body, there is one per recipient, and each is SENT when the trimmed
    subject and body are not empty and the sender is present, FAILED
    otherwise. *)
Theorem prepare_then_send (w : World) (l : loc) (e : Email) :
  heap w !! l = Some e ->
  exists results w',
    (prepare l ;; send_email l) w = (Ok results, w') /\
    length results = length (recipients e) /\
    forall c, In c results ->
      exists copy,
        heap w' !! c = Some copy /\
        subject copy = strip (subject e) /\ body copy = strip (body e) /\
        (strip (subject e) = [] \/ strip (body e) = [] \/ sender e = None ->
         status copy = FAILED) /\
        (~ (strip (subject e) = [] \/ strip (body e) = [] \/ sender e = None) ->
         status copy = SENT).
Proof.
  intros H.
  pose proof (with_heap_lookup w l e (prepared e) H) as H1.
  eexists _, _. split.
  { rewrite (bind_run _ _ _ _ _ (prepare_run _ _ _ H)).
    apply (send_email_run _ _ _ H1). }
  split; [apply length_seq|].
  intros c Hc. apply in_seq in Hc.
  set (w1 := with_heap (<[l:=prepared e]> (heap w)) w) in *.
  change (recipients (prepared e)) with (recipients e) in *.
  destruct (lookup_lt_is_Some_2 (recipients e) (c - length (heap w1)))
    as [r Hr]; [lia|].
  destruct (outcome_at w1 (prepared e) _ r Hr) as [_ Ho].
  replace (length (heap w1) + (c - length (heap w1))) with c in Ho by lia.
  eexists. split; [exact Ho|].
  split; [reflexivity|]. split; [reflexivity|].
  unfold outcome, prepared, validated_status.
  cbn [status subject body sender recipients with_status with_date
       with_recipients with_short_body with_body with_subject].
  destruct (strip (subject e)), (strip (body e)), (sender e), (recipients e);
    try discriminate Hr;
    simpl; split; intros Hx; try reflexivity;
    try (exfalso; apply Hx; auto; fail);
    try (destruct Hx as [Hx|[Hx|Hx]]; discriminate).
Qed.

Lemma prepare_then_send_witness :
  heap demo_world !! 0 = Some demo_email /\
  exists results w',
    (prepare 0 ;; send_email 0) demo_world = (Ok results, w') /\
    length results = length (recipients demo_email) /\
    forall c, In c results ->
      exists copy,
        heap w' !! c = Some copy /\
        subject copy = strip (subject demo_email) /\
        body copy = strip (body demo_email) /\
        (strip (subject demo_email) = [] \/ strip (body demo_email) = [] \/
         sender demo_email = None -> status copy = FAILED) /\
        (~ (strip (subject demo_email) = [] \/ strip (body demo_email) = [] \/
            sender demo_email = None) -> status copy = SENT).
Proof.
  split; [reflexivity|].
  apply (prepare_then_send demo_world 0 demo_email). reflexivity.
Defined.


(** ** More on logging delivery *)

Lemma outcomes_length (e : Email) (clock : nat -> datetime) (n : nat)
    (rs : list EmailAddress) :
  length (outcomes e clock n rs) = length rs.
Proof.
  revert n. induction rs as [|r rs IH]; intros n; simpl; [|rewrite IH];
    reflexivity.
Qed.

Lemma masked_cases (a : EmailAddress) :
  maskable a \/ exists msg, masked a = Raise (ValueError msg).
Proof.
  unfold maskable, masked.
  destruct (split_sep "@" (_address a)) as [|x [|y [|z zs]]];
    [right|right|left|right]; eexists; reflexivity.
Qed.

(** The loop writes the lines of the recipients that can be masked and
    raises at the first that cannot, after one more clock reading. *)
Lemma log_loop_fails (email : loc) (e : Email) (a : EmailAddress)
    (from : pystr) (st : Status) (h : list Email) (clock : nat -> datetime)
    (lbad : loc) (cbad : Email) (bad : EmailAddress) (msg : pystr)
    (more : list loc) :
  h !! email = Some e -> sender e = Some a -> masked a = Ok from ->
  h !! lbad = Some cbad -> recipients cbad = [bad] ->
  masked bad = Raise (ValueError msg) ->
  forall (results : list loc) (good : list EmailAddress),
    Forall2 (fun l r => exists c, h !! l = Some c /\ recipients c = [r]
                                  /\ status c = st) results good ->
    Forall maskable good ->
    forall (n : nat) (text : pystr),
      log_loop email (results ++ lbad :: more)
        {| heap := h; wall := clock; ticks := n; send_log := Some text |}
      = (Raise (ValueError msg),
         {| heap := h; wall := clock; ticks := S (n + length results);
            send_log := Some (text ++ log_text clock n from st good) |}).
Proof.
  intros H Hs Hm Hb Hrb Hmb results good Hall.
  induction Hall as [|l r results good [c [Hc [Hr Hst]]] _ IH];
    intros Hmask n text.
  - cbn [app log_loop length log_text]. unfold bind at 1.
    cbn [datetime_now heap wall ticks send_log].
    erewrite bind_run by (apply (sender_masked_run _ _ e a from); eassumption).
    unfold bind at 1. unfold first_recipient_masked.
    erewrite bind_run by (apply (getattr_run recipients _ _ cbad); exact Hb).
    rewrite Hrb. unfold lift. rewrite Hmb.
    rewrite Nat.add_0_r, app_nil_r. reflexivity.
  - apply Forall_cons in Hmask as [Hr_ok Hrest].
    cbn [app log_loop]. unfold bind at 1.
    cbn [datetime_now heap wall ticks send_log].
    erewrite bind_run by (apply (sender_masked_run _ _ e a from); eassumption).
    erewrite bind_run
      by (apply (first_recipient_masked_run _ _ c r); eassumption).
    erewrite bind_run by (apply (getattr_run status _ _ c); exact Hc).
    unfold bind at 1. cbn [file_write heap wall ticks send_log default].
    rewrite (IH Hrest). rewrite Hst. cbn [length log_text].
    rewrite <- app_assoc.
    replace (S n + length results) with (n + S (length results)) by lia.
    reflexivity.
Qed.

(** X16. With no recipient the logging service returns the empty list
    without raising, whoever the sender is: it makes no copy, does not
    read the clock, and opens send.log, which creates the file when it
    does not exist and leaves its contents as they were. *)
Theorem logging_no_recipient (w : World) (email : loc) (e : Email) :
  heap w !! email = Some e -> recipients e = [] ->
  exists w',
    logging_send_email email w = (Ok [], w') /\
    heap w' = heap w /\ ticks w' = ticks w /\
    send_log w' = Some (default [] (send_log w)).
Proof.
  intros H Hr. eexists. split.
  - unfold logging_send_email.
    rewrite (bind_run _ _ _ _ _ (send_email_run _ _ _ H)). rewrite Hr.
    reflexivity.
  - simpl. rewrite app_nil_r, Nat.add_0_r. auto.
Qed.

Lemma logging_no_recipient_witness :
  (heap no_recipient_world !! 0 = Some no_recipient_email
   /\ recipients no_recipient_email = [])
  /\ exists w',
       logging_send_email 0 no_recipient_world = (Ok [], w') /\
       heap w' = heap no_recipient_world /\
       ticks w' = ticks no_recipient_world /\
       send_log w' = Some (default [] (send_log no_recipient_world)).
Proof.
  split; [split; reflexivity|].
  apply (logging_no_recipient no_recipient_world 0 no_recipient_email);
    reflexivity.
Defined.

(** X17. A recipient that cannot be masked stops the logging service
    half-way: it raises the ValueError of that recipient's [masked],
    although every copy has been made, and send.log has received the
    lines of the recipients before it and no other. *)
Theorem logging_stops_at_recipient (w : World) (email : loc) (e : Email)
    (a : EmailAddress) (from : pystr) (good rest : list EmailAddress)
    (bad : EmailAddress) :
  heap w !! email = Some e -> sender e = Some a -> masked a = Ok from ->
  recipients e = good ++ bad :: rest ->
  Forall maskable good -> ~ maskable bad ->
  exists msg w',
    logging_send_email email w = (Raise (ValueError msg), w') /\
    masked bad = Raise (ValueError msg) /\
    length (heap w') = length (heap w) + length (recipients e) /\
    send_log w'
    = Some (default [] (send_log w)
            ++ log_text (wall w) (ticks w + length (recipients e)) from
                 (resolved (status e)) good).
Proof.
  intros H Hs Hm Hrs Hgood Hbad.
  destruct (masked_cases bad) as [Hok|[msg Hmsg]]; [contradiction|].
  assert (Hb : recipients e !! length good = Some bad).
  { rewrite Hrs. apply list_lookup_middle. reflexivity. }
  destruct (outcome_at w e _ bad Hb) as [_ Hcb].
  exists msg. eexists. split; [|split; [exact Hmsg|]].
  - unfold logging_send_email.
    rewrite (bind_run _ _ _ _ _ (send_email_run _ _ _ H)).
    unfold bind at 1. cbn [open_append heap wall ticks send_log].
    assert (Hseq : seq (length (heap w)) (length (recipients e))
                   = seq (length (heap w)) (length good)
                     ++ (length (heap w) + length good)
                        :: seq (S (length (heap w) + length good))
                             (length rest)).
    { rewrite Hrs, length_app, seq_app. reflexivity. }
    rewrite Hseq.
    unfold bind at 1.
    erewrite (log_loop_fails email e a from (resolved (status e)) _ _
                (length (heap w) + length good) _ bad msg).
    + reflexivity.
    + apply lookup_app_l_Some, H.
    + exact Hs.
    + exact Hm.
    + exact Hcb.
    + reflexivity.
    + exact Hmsg.
    + apply Forall2_same_length_lookup_2; [apply length_seq|].
      intros i l r Hl Hr.
      assert (Hr' : recipients e !! i = Some r)
        by (rewrite Hrs; apply lookup_app_l_Some, Hr).
      destruct (outcome_at w e i r Hr') as [_ Hc].
      apply lookup_seq in Hl as [-> _].
      eexists. split; [exact Hc|]. split; reflexivity.
    + exact Hgood.
  - simpl. split; [|reflexivity].
    rewrite length_app, outcomes_length. reflexivity.
Qed.

Lemma logging_stops_at_recipient_witness :
  (heap bad_recipient_world !! 0 = Some bad_recipient_email
   /\ sender bad_recipient_email = Some {| _address := py "me@me.com" |}
   /\ masked {| _address := py "me@me.com" |} = Ok (py "me***@me.com")
   /\ recipients bad_recipient_email
      = [ {| _address := py "you@you.com" |} ]
        ++ two_separators :: [ {| _address := py "b@b.ru" |} ]
   /\ Forall maskable [ {| _address := py "you@you.com" |} ]
   /\ ~ maskable two_separators)
  /\ exists msg w',
       logging_send_email 0 bad_recipient_world = (Raise (ValueError msg), w') /\
       masked two_separators = Raise (ValueError msg) /\
       length (heap w')
       = length (heap bad_recipient_world)
         + length (recipients bad_recipient_email) /\
       send_log w'
       = Some (default [] (send_log bad_recipient_world)
               ++ log_text (wall bad_recipient_world)
                    (ticks bad_recipient_world
                     + length (recipients bad_recipient_email))
                    (py "me***@me.com")
                    (resolved (status bad_recipient_email))
                    [ {| _address := py "you@you.com" |} ]).
Proof.
  assert (Hgood : Forall maskable [ {| _address := py "you@you.com" |} ]).
  { repeat constructor. eexists. reflexivity. }
  assert (Hbad : ~ maskable two_separators).
  { intros [m Hm]. vm_compute in Hm. discriminate Hm. }
  split; [repeat split; assumption|].
  apply (logging_stops_at_recipient bad_recipient_world 0 bad_recipient_email
           {| _address := py "me@me.com" |} (py "me***@me.com")
           [ {| _address := py "you@you.com" |} ]
           [ {| _address := py "b@b.ru" |} ] two_separators);
    try reflexivity; assumption.
Defined.

(** X18. A sender that is absent or cannot be masked makes the logging
    service raise for every message with a recipient, before any line is
    written; the copies have been made all the same, the clock has been
    read once more than there are recipients, and send.log exists. *)
Theorem logging_fails_on_sender (w : World) (email : loc) (e : Email) :
  heap w !! email = Some e -> recipients e <> [] ->
  (forall a, sender e = Some a -> ~ maskable a) ->
  exists ex w',
    logging_send_email email w = (Raise ex, w') /\
    length (heap w') = length (heap w) + length (recipients e) /\
    ticks w' = S (ticks w + length (recipients e)) /\
    send_log w' = Some (default [] (send_log w)).
Proof.
  intros H Hne Hbad.
  assert (Hsm : forall w0, heap w0 !! email = Some e ->
                exists ex, sender_masked email w0 = (Raise ex, w0)).
  { intros w0 H0. unfold sender_masked.
    rewrite (bind_run _ _ _ _ _ (getattr_run sender _ _ _ H0)).
    destruct (sender e) as [a|] eqn:Hs; [|eexists; reflexivity].
    destruct (masked_cases a) as [Hok|[msg Hmsg]].
    - exfalso. apply (Hbad a); [reflexivity|exact Hok].
    - unfold lift. rewrite Hmsg. eexists. reflexivity. }
  destruct (recipients e) as [|r rs] eqn:Hr; [congruence|].
  match type of Hsm with
  | forall w0, _ -> exists ex, _ =>
      destruct (Hsm {| heap := heap w ++ outcomes e (wall w) (ticks w) (r :: rs);
                       wall := wall w; ticks := S (ticks w + length (r :: rs));
                       send_log := Some (default [] (send_log w)) |})
        as [ex Hex]; [simpl; apply lookup_app_l_Some, H|]
  end.
  exists ex. eexists. split.
  - unfold logging_send_email.
    rewrite (bind_run _ _ _ _ _ (send_email_run _ _ _ H)). rewrite Hr.
    unfold bind at 1. cbn [open_append heap wall ticks send_log].
    cbn [length seq log_loop]. unfold bind at 1. unfold bind at 1.
    cbn [datetime_now heap wall ticks send_log].
    unfold bind at 1. cbn [length] in Hex. rewrite Hex. reflexivity.
  - cbn [heap ticks send_log]. rewrite length_app, outcomes_length. auto.
Qed.

Lemma logging_fails_on_sender_witness :
  (heap bad_sender_world !! 0 = Some bad_sender_email
   /\ recipients bad_sender_email <> []
   /\ (forall a, sender bad_sender_email = Some a -> ~ maskable a))
  /\ exists ex w',
       logging_send_email 0 bad_sender_world = (Raise ex, w') /\
       length (heap w')
       = length (heap bad_sender_world) + length (recipients bad_sender_email) /\
       ticks w' = S (ticks bad_sender_world
                     + length (recipients bad_sender_email)) /\
       send_log w' = Some (default [] (send_log bad_sender_world)).
Proof.
  assert (Hbad : forall a, sender bad_sender_email = Some a -> ~ maskable a).
  { intros a Ha [m Hm]. injection Ha as <-. vm_compute in Hm. discriminate Hm. }
  split; [split; [reflexivity|split; [discriminate|exact Hbad]]|].
  apply (logging_fails_on_sender bad_sender_world 0 bad_sender_email);
    [reflexivity|discriminate|exact Hbad].
Defined.

Lemma logging_send_email_maskable_witness :
  (heap demo_world !! 0 = Some demo_email
   /\ sender demo_email = Some {| _address := py "me@me.com" |}
   /\ masked {| _address := py "me@me.com" |} = Ok (py "me***@me.com")
   /\ Forall maskable (recipients demo_email))
  /\ exists results w1 w',
       send_email 0 demo_world = (Ok results, w1) /\
       logging_send_email 0 demo_world = (Ok results, w') /\
       heap w' = heap w1 /\
       send_log w'
       = Some (default [] (send_log demo_world)
               ++ log_text (wall demo_world)
                    (ticks demo_world + length (recipients demo_email))
                    (py "me***@me.com") (resolved (status demo_email))
                    (recipients demo_email)).
Proof.
  assert (Hall : Forall maskable (recipients demo_email)).
  { repeat constructor; eexists; reflexivity. }
  split; [repeat split; exact Hall|].
  apply (logging_send_email_maskable demo_world 0 demo_email
           {| _address := py "me@me.com" |} (py "me***@me.com"));
    try reflexivity; exact Hall.
Defined.

(** ** The printed form of a message *)

(** X20. [Email.__repr__] prints the sender masked and the recipients in
    full, and changes nothing.  It returns a text whenever the sender can
    be masked, whatever the recipients are, and raises when the sender is
    absent or cannot be masked. *)
Theorem Email_repr_defined (w : World) (l : loc) (e : Email) :
  heap w !! l = Some e ->
  (forall a from, sender e = Some a -> masked a = Ok from ->
     Email_repr l w
     = (Ok (py "Email(from=" ++ from ++ py ", to=["
            ++ join (py ", ") (map value (recipients e))
            ++ py "], subject='" ++ subject e
            ++ py "', status='" ++ Status_value (status e) ++ py "')"), w))
  /\ ((forall a, sender e = Some a -> ~ maskable a) ->
      exists ex, Email_repr l w = (Raise ex, w)).
Proof.
  intros H. split.
  - intros a from Hs Hm. unfold Email_repr.
    rewrite (bind_run _ _ _ _ _ (getattr_run recipients _ _ _ H)).
    rewrite (bind_run _ _ _ _ _ (sender_masked_run _ _ _ _ _ H Hs Hm)).
    rewrite (bind_run _ _ _ _ _ (getattr_run subject _ _ _ H)).
    rewrite (bind_run _ _ _ _ _ (getattr_run status _ _ _ H)).
    reflexivity.
  - intros Hbad. unfold Email_repr.
    rewrite (bind_run _ _ _ _ _ (getattr_run recipients _ _ _ H)).
    unfold bind at 1. unfold sender_masked.
    rewrite (bind_run _ _ _ _ _ (getattr_run sender _ _ _ H)).
    destruct (sender e) as [a|] eqn:Hs; [|eexists; reflexivity].
    destruct (masked_cases a) as [Hok|[msg Hmsg]].
    + exfalso. apply (Hbad a); [reflexivity|exact Hok].
    + unfold lift. rewrite Hmsg. eexists. reflexivity.
Qed.

Lemma Email_repr_defined_witness :
  Email_repr 0 demo_world
  = (Ok (py "Email(from=me***@me.com, to=[you@you.com, b@b.ru], subject=' Hi ', status='draft')"),
     demo_world)
  /\ exists ex, Email_repr 0 bad_sender_world = (Raise ex, bad_sender_world).
Proof.
  split.
  - apply (proj1 (Email_repr_defined demo_world 0 demo_email eq_refl)
             {| _address := py "me@me.com" |} (py "me***@me.com"));
      reflexivity.
  - apply (proj2 (Email_repr_defined bad_sender_world 0 bad_sender_email
                    eq_refl)).
    intros a Ha [m Hm]. injection Ha as <-. vm_compute in Hm. discriminate Hm.
Defined.
